(** * msticpy.sectools.auditdextract: a shallow embedding

    The auditd extractor turns the lines of a Linux audit log into events
    (one event per message id) and builds process trees from the events.
    The definitions below follow [src/msticpy/sectools/auditdextract.py]
    function by function and keep its names.

    Conventions of the embedding:
    - a Python [str] is a [string] whose characters are read as the code
      points 0..255;
    - a Python [dict] is an association list in insertion order; looking a
      key up takes its first binding, assigning to a present key keeps the
      key's position, assigning to a new key appends it;
    - a Python exception is the [Raise] outcome of the error monad
      [result]; the pandas code runs in a state monad over a heap of
      tables, so that two names of one table are one address;
    - a [while] loop takes fuel, and [NoFuel] is the outcome of a loop
      that the fuel does not bring to its end;
    - what a library computes and the definitions below do not model (the
      hex codec, the joins of pandas, the times of [datetime]) is a
      variable of a section, a function of its arguments. *)

From Stdlib Require Import List String Ascii ZArith Lia Bool Arith.
From Stdlib Require Import DecimalString DecimalNat.
From Stdlib Require Import Permutation Sorted.
Import ListNotations.
Open Scope string_scope.
Open Scope Z_scope.

Set Implicit Arguments.

(* ================================================================== *)
(** ** Python exceptions and results *)

Inductive pyerr : Type :=
| KeyError
| IndexError
| ValueError
| TypeError
| AttributeError.

Inductive result (A : Type) : Type :=
| Ok (a : A)
| Raise (e : pyerr).

Arguments Ok {A} a.
Arguments Raise {A} e.

Definition rbind {A B} (m : result A) (k : A -> result B) : result B :=
  match m with
  | Ok a => k a
  | Raise e => Raise e
  end.

Notation "x <-? m ;; k" := (rbind m (fun x => k))
  (at level 61, m at next level, right associativity).

(* ================================================================== *)
(** ** Strings *)

Module PyStr.

Definition nl : ascii := ascii_of_nat 10.

(** [str.isspace] on the code points 0..255 (also the class [\s] of
    [re] on [str] patterns). *)
Definition is_space (c : ascii) : bool :=
  let n := nat_of_ascii c in
  ((9 <=? n) && (n <=? 13) || (28 <=? n) && (n <=? 32)
   || (n =? 133) || (n =? 160))%nat.

Definition is_digit (c : ascii) : bool :=
  let n := nat_of_ascii c in ((48 <=? n) && (n <=? 57))%nat.

Definition digit_val (c : ascii) : Z := Z.of_nat (nat_of_ascii c) - 48.

Definition is_empty (s : string) : bool :=
  match s with EmptyString => true | String _ _ => false end.

Fixpoint lstrip (s : string) : string :=
  match s with
  | String c r => if is_space c then lstrip r else s
  | EmptyString => EmptyString
  end.

(** [s.rstrip()]: the trailing white space goes. *)
Fixpoint rstrip (s : string) : string :=
  match s with
  | EmptyString => EmptyString
  | String c r =>
      match rstrip r with
      | EmptyString => if is_space c then EmptyString else String c EmptyString
      | r' => String c r'
      end
  end.

Definition strip (s : string) : string := rstrip (lstrip s).

(** [drop_prefix p s] is [Some r] when [s = p ++ r]. *)
Fixpoint drop_prefix (p s : string) : option string :=
  match p, s with
  | EmptyString, _ => Some s
  | String a p', String b s' =>
      if Ascii.eqb a b then drop_prefix p' s' else None
  | String _ _, EmptyString => None
  end.

(** [s.split(sep)] for a separator that is not empty: the pieces between
    the occurrences of [sep], found from the left without overlap.  [cur]
    is the piece being read; [skip] counts the characters of a separator
    just found that are still to be passed. *)
Fixpoint split_aux (sep : string) (skip : nat) (cur : string) (s : string)
  : list string :=
  match s with
  | EmptyString => [cur]
  | String c r =>
      match skip with
      | S k => split_aux sep k cur r
      | O =>
          match drop_prefix sep s with
          | Some _ => cur :: split_aux sep (String.length sep - 1) EmptyString r
          | None => split_aux sep O (cur ++ String c EmptyString) r
          end
      end
  end.

Definition split (sep s : string) : list string :=
  split_aux sep O EmptyString s.

(** [sep.join(l)] *)
Fixpoint join (sep : string) (l : list string) : string :=
  match l with
  | [] => EmptyString
  | [x] => x
  | x :: rest => x ++ sep ++ join sep rest
  end.

(** The longest prefix whose characters satisfy [p], and the rest. *)
Fixpoint span (p : ascii -> bool) (s : string) : string * string :=
  match s with
  | EmptyString => (EmptyString, EmptyString)
  | String c r =>
      if p c then let '(a, b) := span p r in (String c a, b)
      else (EmptyString, s)
  end.

(** [str(n)] for a natural number, as in the f-string [f"a{arg_idx}"]. *)
Definition of_nat (n : nat) : string := NilEmpty.string_of_uint (Nat.to_uint n).

(** The digits of a decimal literal of [int(str)]: at least one digit,
    single underscores allowed between digits only. *)
Fixpoint digits_acc (after_digit : bool) (acc : Z) (s : string) : option Z :=
  match s with
  | EmptyString => if after_digit then Some acc else None
  | String c r =>
      if is_digit c then digits_acc true (10 * acc + digit_val c) r
      else if Ascii.eqb c "_" then
             if after_digit then digits_acc false acc r else None
           else None
  end.

(** The white space that [int(str)] passes over: the white space of C
    below code point 127 (the separators 28 to 31 are not part of it), and
    above it the white space of [str.isspace], which [int] reads as a
    space. *)
Definition is_int_space (c : ascii) : bool :=
  let n := nat_of_ascii c in
  ((9 <=? n) && (n <=? 13) || (n =? 32) || (n =? 133) || (n =? 160))%nat.

Fixpoint lstrip_int (s : string) : string :=
  match s with
  | String c r => if is_int_space c then lstrip_int r else s
  | EmptyString => EmptyString
  end.

Fixpoint rstrip_int (s : string) : string :=
  match s with
  | EmptyString => EmptyString
  | String c r =>
      match rstrip_int r with
      | EmptyString => if is_int_space c then EmptyString else String c EmptyString
      | r' => String c r'
      end
  end.

(** [int(s)] in base 10: white space around, an optional sign, digits
    (below code point 256 the only decimal digits are 0 to 9).  [None]
    stands for the [ValueError]. *)
Definition to_int (s : string) : option Z :=
  match rstrip_int (lstrip_int s) with
  | String "-" r => option_map Z.opp (digits_acc false 0 r)
  | String "+" r => digits_acc false 0 r
  | t => digits_acc false 0 t
  end.

End PyStr.

(* ================================================================== *)
(** ** Dictionaries in insertion order *)

Module PyDict.
Section Ops.
Variable V : Type.

Definition t := list (string * V).

(** [d.get(k)] *)
Fixpoint get (k : string) (d : t) : option V :=
  match d with
  | [] => None
  | (k', v) :: r => if String.eqb k k' then Some v else get k r
  end.

(** [k in d] *)
Definition mem (k : string) (d : t) : bool :=
  match get k d with Some _ => true | None => false end.

(** [d[k] = v] *)
Fixpoint set (k : string) (v : V) (d : t) : t :=
  match d with
  | [] => [(k, v)]
  | (k', v') :: r =>
      if String.eqb k k' then (k', v) :: r else (k', v') :: set k v r
  end.

Definition keys (d : t) : list string := map fst d.
End Ops.

(** [d.update(other)], with the values of [other] mapped by [f]. *)
Definition update {V W} (f : W -> V) (d : t V) (other : t W) : t V :=
  fold_left (fun acc kv => set (fst kv) (f (snd kv)) acc) other d.
End PyDict.

(* ================================================================== *)
(** ** The static tables *)

(** The schema of one message type: field name and conversion
    ([Some "int"] or [None]), in the order of the source. *)
Definition field_defs := PyDict.t (option string).

Definition _USER_START : field_defs :=
  [ ("pid", Some "int"); ("uid", Some "int"); ("auid", Some "int");
    ("ses", Some "int"); ("msg", None); ("acct", None); ("exe", None);
    ("hostname", None); ("addr", None); ("terminal", None); ("res", None) ].

Definition _FIELD_DEFS : PyDict.t field_defs :=
  [ ("SYSCALL",
      [ ("success", None); ("ppid", Some "int"); ("pid", Some "int");
        ("auid", Some "int"); ("uid", Some "int"); ("gid", Some "int");
        ("euid", Some "int"); ("egid", Some "int"); ("ses", Some "int");
        ("exe", None); ("com", None) ]);
    ("CWD", [ ("cwd", None) ]);
    ("PROCTITLE", [ ("proctitle", None) ]);
    ("LOGIN",
      [ ("pid", Some "int"); ("uid", Some "int"); ("tty", None);
        ("old-ses", Some "int"); ("ses", Some "int"); ("res", None) ]);
    ("EXECVE", [ ("argc", Some "int"); ("a0", None); ("a1", None); ("a2", None) ]);
    ("_USER_START", _USER_START);
    ("USER_END", _USER_START);
    ("CRED_DISP", _USER_START);
    ("USER_ACCT", _USER_START);
    ("CRED_ACQ", _USER_START);
    ("USER_CMD",
      [ ("pid", Some "int"); ("uid", Some "int"); ("auid", Some "int");
        ("ses", Some "int"); ("msg", None); ("cmd", None);
        ("terminal", None); ("res", None) ]) ].

(* ================================================================== *)
(** ** Event assembly *)

(** A value of an assembled event. *)
Inductive pyval : Type :=
| VNone
| VStr (s : string)
| VInt (z : Z).

(** The fields of one message as [unpack_auditd] leaves them: each key
    with its text, or with [None] for a token without [=]. *)
Definition raw_fields := PyDict.t (option string).

(** The messages of one message id, by message type. *)
Definition message_dict := PyDict.t raw_fields.

Definition event_dict := PyDict.t pyval.

Definition of_raw (v : option string) : pyval :=
  match v with
  | Some s => VStr s
  | None => VNone
  end.

(** [message_dict[mssg_type].get(fieldname, None)] when it is truthy:
    present, not [None] and not the empty string. *)
Definition truthy_value (fields : raw_fields) (fieldname : string) : option string :=
  match PyDict.get fieldname fields with
  | Some (Some s) => if PyStr.is_empty s then None else Some s
  | _ => None
  end.

(** Lines 229-233: the conversion of a field's text. *)
Definition convert (conv : option string) (value : string) : result pyval :=
  match conv with
  | Some c =>
      if String.eqb c "int" then
        match PyStr.to_int value with
        | Some n => Ok (VInt (if n =? 4294967295 then -1 else n))
        | None => Raise ValueError
        end
      else Ok (VStr value)
  | None => Ok (VStr value)
  end.

(** Lines 234-237: where the value goes. *)
Definition store (mssg_type fieldname : string) (value : pyval)
  (event : event_dict) : event_dict :=
  if PyDict.mem fieldname event
  then PyDict.set (fieldname ++ "_" ++ mssg_type) value event
  else PyDict.set fieldname value event.

(** The loop of [_extract_mssg_value] over the schema of the type. *)
Fixpoint extract_fields (mssg_type : string) (fields : raw_fields)
  (defs : field_defs) (event : event_dict) : result event_dict :=
  match defs with
  | [] => Ok event
  | (fieldname, conv) :: rest =>
      match truthy_value fields fieldname with
      | None => Ok event                       (* if not value: return *)
      | Some value =>
          v <-? convert conv value ;;
          extract_fields mssg_type fields rest (store mssg_type fieldname v event)
      end
  end.

Definition _extract_mssg_value (mssg_type : string) (md : message_dict)
  (event : event_dict) : result event_dict :=
  match PyDict.get mssg_type _FIELD_DEFS with
  | None => Raise KeyError
  | Some [] => Ok event
  | Some defs =>
      match PyDict.get mssg_type md with
      | None => Raise KeyError
      | Some fields => extract_fields mssg_type fields defs event
      end
  end.

(** [int(x)] on a value of an event. *)
Definition int_of_val (v : pyval) : result Z :=
  match v with
  | VInt n => Ok n
  | VStr s => match PyStr.to_int s with Some n => Ok n | None => Raise ValueError end
  | VNone => Raise TypeError
  end.

(** [" ".join(arg_strs)]: every item must be a [str]. *)
Fixpoint strs_of_vals (l : list pyval) : result (list string) :=
  match l with
  | [] => Ok []
  | VStr s :: r => r' <-? strs_of_vals r ;; Ok (s :: r')
  | _ :: _ => Raise TypeError
  end.

Definition get_default (k : string) (dflt : pyval) (event : event_dict) : pyval :=
  match PyDict.get k event with
  | Some v => v
  | None => dflt
  end.

(** Lines 185-190: the command line from [argc] and [a0], [a1], ... *)
Definition add_cmdline (event : event_dict) : result event_dict :=
  args <-? int_of_val (get_default "argc" (VInt 1) event) ;;
  let arg_strs :=
    map (fun arg_idx => get_default ("a" ++ PyStr.of_nat arg_idx) (VStr "") event)
        (seq 0 (Z.to_nat args)) in
  strs <-? strs_of_vals arg_strs ;;
  Ok (PyDict.set "cmdline" (VStr (PyStr.join " " strs)) event).

(** Lines 179-190: the loop over the four types of a process creation. *)
Fixpoint proc_create_loop (types : list string) (md : message_dict)
  (event : event_dict) : result event_dict :=
  match types with
  | [] => Ok event
  | mssg_type :: rest =>
      if negb (PyDict.mem mssg_type md) || negb (PyDict.mem mssg_type _FIELD_DEFS)
      then proc_create_loop rest md event
      else
        event1 <-? _extract_mssg_value mssg_type md event ;;
        event2 <-? (if String.eqb mssg_type "EXECVE"
                    then add_cmdline event1 else Ok event1) ;;
        proc_create_loop rest md event2
  end.

(** Lines 194-201: the loop over the message types of the record. *)
Fixpoint general_loop (items : message_dict) (md : message_dict)
  (event : event_dict) : result event_dict :=
  match items with
  | [] => Ok event
  | (mssg_type, _) :: rest =>
      event1 <-? (if PyDict.mem mssg_type _FIELD_DEFS
                  then _extract_mssg_value mssg_type md event
                  else match PyDict.get mssg_type md with
                       | Some fields => Ok (PyDict.update of_raw event fields)
                       | None => Raise KeyError
                       end) ;;
      general_loop rest md event1
  end.

Definition _extract_event (md : message_dict) : result (string * event_dict) :=
  if PyDict.mem "SYSCALL" md && PyDict.mem "EXECVE" md then
    event <-? proc_create_loop ["SYSCALL"; "CWD"; "EXECVE"; "PROCTITLE"] md [] ;;
    Ok ("SYSCALL_EXECVE", event)
  else
    event <-? general_loop md md [] ;;
    match PyDict.keys md with
    | [] => Raise IndexError
    | first :: _ => Ok (first, event)
    end.

(* ================================================================== *)
(** ** Parsing one line *)

(** [l[i]] *)
Definition index {A} (l : list A) (i : nat) : result A :=
  match nth_error l i with
  | Some x => Ok x
  | None => Raise IndexError
  end.

(** [re.match(r"type=([^\s]+)", s)]: the group, when the pattern matches
    at the start of [s]. *)
Definition re_match_type (s : string) : option string :=
  match PyStr.drop_prefix "type=" s with
  | Some r =>
      let '(g, _) := PyStr.span (fun c => negb (PyStr.is_space c)) r in
      if PyStr.is_empty g then None else Some g
  | None => None
  end.

(** [msg=audit\(([^\)]+)\)] at the start of [s]. *)
Definition re_msg_here (s : string) : option string :=
  match PyStr.drop_prefix "msg=audit(" s with
  | Some r =>
      let '(g, rest) := PyStr.span (fun c => negb (Ascii.eqb c ")")) r in
      if PyStr.is_empty g then None
      else match rest with
           | String _ _ => Some g
           | EmptyString => None
           end
  | None => None
  end.

(** [re.match(r".*msg=audit\(([^\)]+)\)", s)]: [.*] is greedy and stays
    on the first line, so the group is that of the last place of the first
    line where the rest of the pattern matches. *)
Fixpoint re_match_msg (s : string) : option string :=
  match s with
  | EmptyString => None
  | String c r =>
      match (if Ascii.eqb c PyStr.nl then None else re_match_msg r) with
      | Some g => Some g
      | None => re_msg_here s
      end
  end.

(** The value of [_parse_audit_message]: a list with no or one dictionary
    from the message type to the tokens of the message. *)
Definition audit_msgs := list (PyDict.t (list string)).

Definition _parse_audit_message (audit_str : string) : result audit_msgs :=
  let audit_message := PyStr.split ": " (PyStr.rstrip audit_str) in
  audit_headers <-? index audit_message 0 ;;
  match re_match_type audit_headers with
  | Some mssg_type =>
      body <-? index audit_message 1 ;;
      Ok [[(mssg_type, PyStr.split " " body)]]
  | None => Ok []
  end.

Definition _extract_timestamp (audit_str : string) : result string :=
  let audit_message := PyStr.split ": " (PyStr.rstrip audit_str) in
  audit_headers <-? index audit_message 0 ;;
  match re_match_msg audit_headers with
  | Some payload => index (PyStr.split ":" payload) 0
  | None => Ok ""
  end.

(* ================================================================== *)
(** ** Tables

    A pandas [DataFrame] is modelled by its column labels and its rows;
    a row binds column labels to cells, and a label without a binding is a
    missing value.  Row labels (the index) are not part of a table: the
    rows of a table are in the order of its index, and where the code
    joins tables on the index (lines 324-334) a table is given with the
    positions of its rows in the data.  Numbers are integers and time
    stamps are numbers. *)

Inductive cell : Type :=
| NaN
| Num (z : Z)
| Str (s : string)
| Msgs (m : audit_msgs).

Definition row := PyDict.t cell.

Record frame : Type := { columns : list string; rows : list row }.

Definition empty_frame : frame := {| columns := []; rows := [] |}.

Fixpoint list_eqb {A} (eqb : A -> A -> bool) (l1 l2 : list A) : bool :=
  match l1, l2 with
  | [], [] => true
  | x :: r1, y :: r2 => eqb x y && list_eqb eqb r1 r2
  | _, _ => false
  end.

Definition pair_eqb {A B} (ea : A -> A -> bool) (eb : B -> B -> bool)
  (p q : A * B) : bool :=
  ea (fst p) (fst q) && eb (snd p) (snd q).

Definition cell_eqb (c d : cell) : bool :=
  match c, d with
  | NaN, NaN => true
  | Num a, Num b => a =? b
  | Str a, Str b => String.eqb a b
  | Msgs a, Msgs b =>
      list_eqb (list_eqb (pair_eqb String.eqb (list_eqb String.eqb))) a b
  | _, _ => false
  end.

Definition row_eqb : row -> row -> bool := list_eqb (pair_eqb String.eqb cell_eqb).

Definition has_label (c : string) (cols : list string) : bool :=
  existsb (String.eqb c) cols.

(** The cell of a row under a label. *)
Definition cell_at (c : string) (r : row) : cell :=
  match PyDict.get c r with
  | Some v => v
  | None => NaN
  end.

Definition notnull (c : cell) : bool :=
  match c with NaN => false | _ => true end.

(** [column == n] on one cell. *)
Definition cell_eq_int (n : Z) (c : cell) : bool :=
  match c with Num m => m =? n | _ => false end.

(** [column > t] on one cell; a comparison with a missing value is false. *)
Definition cell_gt (t c : cell) : bool :=
  match c, t with Num a, Num b => b <? a | _, _ => false end.

(** [int(x)] on a cell. *)
Definition int_of_cell (c : cell) : result Z :=
  match c with
  | Num n => Ok n
  | NaN => Raise ValueError
  | Str s => match PyStr.to_int s with Some n => Ok n | None => Raise ValueError end
  | Msgs _ => Raise TypeError
  end.

(** [math.isnan(x)] on a cell. *)
Definition isnan (c : cell) : result bool :=
  match c with
  | NaN => Ok true
  | Num _ => Ok false
  | Str _ | Msgs _ => Raise TypeError
  end.

Fixpoint mask_rows {A} (mask : list bool) (l : list A) : list A :=
  match mask, l with
  | b :: m, x :: r => if b then x :: mask_rows m r else mask_rows m r
  | _, _ => []
  end.

Definition add_label (c : string) (cols : list string) : list string :=
  if has_label c cols then cols else (cols ++ [c])%list.

(** [df[c] = v] for one value [v] on every row. *)
Definition frame_assign (c : string) (v : cell) (f : frame) : frame :=
  {| columns := add_label c (columns f);
     rows := map (PyDict.set c v) (rows f) |}.

(** [df[c] = values], one value per row. *)
Definition frame_assign_column (c : string) (values : list cell) (f : frame) : frame :=
  {| columns := add_label c (columns f);
     rows := map (fun rv => PyDict.set c (snd rv) (fst rv)) (combine (rows f) values) |}.

(** [a.append(b, sort=False)] *)
Definition frame_append (a b : frame) : frame :=
  {| columns := fold_left (fun cols c => add_label c cols) (columns b) (columns a);
     rows := (rows a ++ rows b)%list |}.

Definition rename_label (m : PyDict.t string) (c : string) : string :=
  match PyDict.get c m with
  | Some c' => c'
  | None => c
  end.

(** [df.rename(columns=m)] *)
Definition frame_rename (m : PyDict.t string) (f : frame) : frame :=
  {| columns := map (rename_label m) (columns f);
     rows := map (map (fun kv => (rename_label m (fst kv), snd kv))) (rows f) |}.

(** Ascending order of the numbers, anything else last. *)
Definition cell_leb (c d : cell) : bool :=
  match c, d with
  | Num a, Num b => a <=? b
  | Num _, _ => true
  | _, Num _ => false
  | _, _ => true
  end.

Fixpoint insert_row (by_ : string) (r : row) (l : list row) : list row :=
  match l with
  | [] => [r]
  | x :: rest =>
      if cell_leb (cell_at by_ x) (cell_at by_ r) then x :: insert_row by_ r rest
      else r :: l
  end.

(** [df.sort_values(by=by_)]; rows with equal keys keep their order here,
    and nothing below depends on the order of equal keys. *)
Definition sort_rows (by_ : string) (l : list row) : list row :=
  fold_left (fun acc r => insert_row by_ r acc) l [].

(** [df[cols]]: each row with exactly the cells of [cols]. *)
Definition frame_select (cols : list string) (f : frame) : frame :=
  {| columns := cols;
     rows := map (fun r => map (fun c => (c, cell_at c r)) cols) (rows f) |}.

(** [df.drop_duplicates()]: the first of equal rows stays. *)
Fixpoint dedup (seen : list row) (l : list row) : list row :=
  match l with
  | [] => []
  | r :: rest =>
      if existsb (row_eqb r) seen then dedup seen rest
      else r :: dedup (r :: seen) rest
  end.

(* ================================================================== *)
(** ** The heap of tables and its monad *)

Definition addr := nat.
Definition heap := list frame.

Inductive outcome (A : Type) : Type :=
| Return (a : A)
| Throw (e : pyerr)
| NoFuel.

Arguments Return {A} a.
Arguments Throw {A} e.
Arguments NoFuel {A}.

Definition M (A : Type) : Type := heap -> outcome A * heap.

Definition ret {A} (a : A) : M A := fun h => (Return a, h).

Definition bind {A B} (m : M A) (k : A -> M B) : M B :=
  fun h =>
    match m h with
    | (Return a, h') => k a h'
    | (Throw e, h') => (Throw e, h')
    | (NoFuel, h') => (NoFuel, h')
    end.

Definition lift {A} (r : result A) : M A :=
  fun h => match r with
           | Ok a => (Return a, h)
           | Raise e => (Throw e, h)
           end.

Notation "x <- m ;; k" := (bind m (fun x => k))
  (at level 61, m at next level, right associativity).
Notation "' pat <- m ;; k" := (bind m (fun x => match x with pat => k end))
  (at level 61, pat pattern, m at next level, right associativity).
Notation "m ;;; k" := (bind m (fun _ => k))
  (at level 61, right associativity).

Definition read (a : addr) : M frame := fun h => (Return (nth a h empty_frame), h).

(** A new table gets the next address. *)
Definition alloc (f : frame) : M addr := fun h => (Return (List.length h), (h ++ [f])%list).

Fixpoint replace_nth {A} (n : nat) (x : A) (l : list A) : list A :=
  match l, n with
  | [], _ => []
  | _ :: r, O => x :: r
  | y :: r, S n' => y :: replace_nth n' x r
  end.

Definition modify (a : addr) (g : frame -> frame) : M unit :=
  fun h => (Return tt, replace_nth a (g (nth a h empty_frame)) h).

Module pd.

(** [df[c]] *)
Definition column (a : addr) (c : string) : M (list cell) :=
  f <- read a ;;
  if has_label c (columns f) then ret (map (cell_at c) (rows f))
  else lift (Raise KeyError).

(** [c in df] *)
Definition has_column (a : addr) (c : string) : M bool :=
  f <- read a ;; ret (has_label c (columns f)).

(** [df.loc[mask]]: a new table. *)
Definition loc (a : addr) (mask : list bool) : M addr :=
  f <- read a ;;
  alloc {| columns := columns f; rows := mask_rows mask (rows f) |}.

(** [df.head()] *)
Definition head (a : addr) : M addr :=
  f <- read a ;;
  alloc {| columns := columns f; rows := firstn 5 (rows f) |}.

(** [df.empty] *)
Definition empty (a : addr) : M bool :=
  f <- read a ;;
  ret (match rows f, columns f with
       | _ :: _, _ :: _ => false
       | _, _ => true
       end).

(** [a.append(b, sort=False)]: a new table. *)
Definition append (a b : addr) : M addr :=
  fa <- read a ;; fb <- read b ;; alloc (frame_append fa fb).

(** [df.loc[:, "NodeRole"] = pd.Series(role, index=df.index)] and the same
    for ["Level"]: in place. *)
Definition tag (a : addr) (role : string) (level : Z) : M unit :=
  modify a (frame_assign "NodeRole" (Str role)) ;;;
  modify a (frame_assign "Level" (Num level)).

(** [df.iterrows()]: each row with a cell for every column. *)
Definition iterrows (a : addr) : M (list row) :=
  f <- read a ;;
  ret (map (fun r => map (fun c => (c, cell_at c r)) (columns f)) (rows f)).

(** [row[c]] *)
Definition row_get (r : row) (c : string) : result cell :=
  match PyDict.get c r with
  | Some v => Ok v
  | None => Raise KeyError
  end.

End pd.

Fixpoint for_each {A S} (l : list A) (body : A -> S -> M S) (s : S) : M S :=
  match l with
  | [] => ret s
  | x :: r => s' <- body x s ;; for_each r body s'
  end.

Fixpoint while (fuel : nat) {S} (cond : S -> bool) (body : S -> M S) (s : S) : M S :=
  match fuel with
  | O => fun h => (NoFuel, h)
  | Datatypes.S fuel' =>
      if cond s then s' <- body s ;; while fuel' cond body s' else ret s
  end.

(* ================================================================== *)
(** ** The process tree *)

(** The state of the two [while] loops: [count], the table of the last
    generation ([pdf] or [cdf]) and [process_tree]. *)
Definition walk_state : Type := Z * addr * addr.

Definition count_of (st : walk_state) : Z := fst (fst st).
Definition tree_of (st : walk_state) : addr := snd st.

(** Lines 531-539: one round of [for ancest_pid in pdf["ppid"]]. *)
Definition ancestor_step (audit_data : addr) (branch_depth : Z)
  (ancest_pid : cell) (st : walk_state) : M walk_state :=
  let '(count, pdf, process_tree) := st in
  nan <- lift (isnan ancest_pid) ;;
  if nan then ret (branch_depth + 1, pdf, process_tree)
  else
    pids <- pd.column audit_data "pid" ;;
    n <- lift (int_of_cell ancest_pid) ;;
    pdf' <- pd.loc audit_data (map (cell_eq_int n) pids) ;;
    pd.tag pdf' "parent" (count + 1) ;;;
    process_tree' <- pd.append process_tree pdf' ;;
    ret (count + 1, pdf', process_tree').

(** Lines 528-539: the body of the first [while]. *)
Definition ancestor_body (audit_data : addr) (branch_depth : Z)
  (st : walk_state) : M walk_state :=
  let '(count, pdf, process_tree) := st in
  e <- pd.empty pdf ;;
  if e then ret (branch_depth + 1, pdf, process_tree)
  else
    ppids <- pd.column pdf "ppid" ;;
    for_each ppids (ancestor_step audit_data branch_depth) st.

(** Lines 553-558: one round of [for desc_pid in cdf["pid"]]. *)
Definition descendant_step (audit_data : addr) (desc_pid : cell)
  (st : walk_state) : M walk_state :=
  let '(count, cdf, process_tree) := st in
  ppids <- pd.column audit_data "ppid" ;;
  n <- lift (int_of_cell desc_pid) ;;
  cdf' <- pd.loc audit_data (map (cell_eq_int n) ppids) ;;
  pd.tag cdf' "child" (count + 1) ;;;
  process_tree' <- pd.append process_tree cdf' ;;
  ret (count + 1, cdf', process_tree').

(** Lines 550-558: the body of the second [while]. *)
Definition descendant_body (audit_data : addr) (branch_depth : Z)
  (st : walk_state) : M walk_state :=
  let '(count, cdf, process_tree) := st in
  e <- pd.empty cdf ;;
  if e then ret (branch_depth + 1, cdf, process_tree)
  else
    pids <- pd.column cdf "pid" ;;
    for_each pids (descendant_step audit_data) st.

Definition in_depth (branch_depth : Z) (st : walk_state) : bool :=
  count_of st <=? branch_depth.

(** Lines 540-558: the descendants of one row of [procs]. *)
Definition descendants_of (fuel : nat) (audit_data : addr) (branch_depth : Z)
  (proc : row) (process_tree : addr) : M addr :=
  times <- pd.column audit_data "TimeGenerated" ;;
  t0 <- lift (pd.row_get proc "TimeGenerated") ;;
  child_procs <- pd.loc audit_data (map (cell_gt t0) times) ;;
  ppids <- pd.column child_procs "ppid" ;;
  proc_pid <- lift (pd.row_get proc "pid") ;;
  n <- lift (int_of_cell proc_pid) ;;
  cdf <- pd.loc child_procs (map (cell_eq_int n) ppids) ;;
  pd.tag cdf "child" 1 ;;;
  process_tree1 <- pd.append process_tree cdf ;;
  st <- while fuel (in_depth branch_depth)
          (descendant_body audit_data branch_depth) (1, cdf, process_tree1) ;;
  ret (tree_of st).

(** Lines 521-558: the body of [for proc_pid in procs["pid"]]. *)
Definition seed_body (fuel : nat) (audit_data : addr) (branch_depth : Z)
  (procs : addr) (proc_pid : cell) (process_tree : addr) : M addr :=
  pids <- pd.column audit_data "pid" ;;
  n <- lift (int_of_cell proc_pid) ;;
  pdf <- pd.loc audit_data (map (cell_eq_int n) pids) ;;
  pd.tag pdf "parent" 1 ;;;
  process_tree1 <- pd.append process_tree pdf ;;
  st <- while fuel (in_depth branch_depth)
          (ancestor_body audit_data branch_depth) (1, pdf, process_tree1) ;;
  seeds <- pd.iterrows procs ;;
  for_each seeds (descendants_of fuel audit_data branch_depth) (tree_of st).

Definition canonical_names : PyDict.t string :=
  [ ("acct", "SubjectUserName"); ("uid", "SubjectUserSid");
    ("user", "SubjectUserName"); ("ses", "SubjectLogonId");
    ("pid", "NewProcessId"); ("exe", "NewProcessName");
    ("ppid", "ProcessId"); ("cmd", "CommandLine") ].

Definition tree_columns : list string :=
  [ "TimeGenerated"; "NewProcessName"; "CommandLine"; "NewProcessId";
    "SubjectUserSid"; "cwd"; "ProcessId"; "NodeRole"; "Level" ].

(** Lines 559-589: renaming, the seeds, the order, the columns, the rows
    with a process id, without duplicates. *)
Definition finish_tree (process_tree procs : addr) : M addr :=
  t <- read process_tree ;;
  renamed <- alloc (frame_rename canonical_names t) ;;
  with_procs <- pd.append renamed procs ;;
  f <- read with_procs ;;
  if negb (has_label "TimeGenerated" (columns f)) then lift (Raise KeyError)
  else
    sorted <- alloc {| columns := columns f;
                       rows := sort_rows "TimeGenerated" (rows f) |} ;;
    if negb (forallb (fun c => has_label c (columns f)) tree_columns)
    then lift (Raise KeyError)
    else
      g <- read sorted ;;
      selected <- alloc (frame_select tree_columns g) ;;
      ids <- pd.column selected "NewProcessId" ;;
      with_id <- pd.loc selected (map notnull ids) ;;
      k <- read with_id ;;
      alloc {| columns := columns k; rows := dedup [] (rows k) |}.

(** Lines 520-589: the tree of the seeds [procs]. *)
Definition build_tree (fuel : nat) (audit_data : addr) (branch_depth : Z)
  (procs : addr) : M addr :=
  process_tree <- alloc empty_frame ;;
  seed_pids <- pd.column procs "pid" ;;
  process_tree' <-
    for_each seed_pids (seed_body fuel audit_data branch_depth procs) process_tree ;;
  finish_tree process_tree' procs.

(** [generate_process_tree(audit_data, branch_depth, processes)]; the
    tables of the caller are addresses of the heap, the result is the
    address of the tree.  [fuel] bounds the rounds of each [while]. *)
Definition generate_process_tree (fuel : nat) (audit_data : addr)
  (branch_depth : Z) (processes : option addr) : M addr :=
  procs <- match processes with
           | None =>
               pids <- pd.column audit_data "pid" ;;
               with_pid <- pd.loc audit_data (map notnull pids) ;;
               pd.head with_pid
           | Some p => ret p
           end ;;
  has_role <- pd.has_column procs "NodeRole" ;;
  has_level <- pd.has_column procs "Level" ;;
  (if negb has_role && negb has_level then pd.tag procs "source" 0 else ret tt) ;;;
  build_tree fuel audit_data branch_depth procs.

(* ================================================================== *)
(** ** The first lines of [extract_events_to_df]

    Lines 293-299 of [extract_events_to_df]: the two passes over the
    column of raw lines, which assign to [data].  The lines after them
    are in [extract_events_to_df] below. *)

Fixpoint map_result {A B} (f : A -> result B) (l : list A) : result (list B) :=
  match l with
  | [] => Ok []
  | x :: r => y <-? f x ;; r' <-? map_result f r ;; Ok (y :: r')
  end.

(** The [str] of a cell, for a method of [str]. *)
Definition as_str (c : cell) : result string :=
  match c with
  | Str s => Ok s
  | _ => Raise AttributeError
  end.

Definition is_str (c : cell) : bool :=
  match c with Str _ => true | _ => false end.

(** [data.apply(lambda x: _extract_timestamp(x[input_column]), axis=1)] *)
Definition timestamp_cells (col : list cell) : result (list cell) :=
  map_result (fun c => s <-? as_str c ;; t <-? _extract_timestamp s ;; Ok (Str t)) col.

(** [data.apply(lambda x: _parse_audit_message(x[input_column]), axis=1)] *)
Definition message_cells (col : list cell) : result (list cell) :=
  map_result (fun c => s <-? as_str c ;; m <-? _parse_audit_message s ;; Ok (Msgs m)) col.

(** Lines 293-299. *)
Definition extract_events_to_df_inplace (data : addr) (input_column : string)
  : M unit :=
  col <- pd.column data input_column ;;
  first <- lift (match col with
                 | c :: _ => Ok c
                 | [] => Raise KeyError        (* .head(1)[0] *)
                 end) ;;
  if is_str first then
    ids <- lift (timestamp_cells col) ;;
    modify data (frame_assign_column "mssg_id" ids) ;;;
    msgs <- lift (message_cells col) ;;
    modify data (frame_assign_column input_column msgs)
  else ret tt.

(* ================================================================== *)
(** ** Unpacking the messages of one event *)

Definition _ENCODED_PARAMS : PyDict.t (list string) :=
  [ ("EXECVE", ["a0"; "a1"; "a2"; "a3"; "arch"]);
    ("PROCTITLE", ["proctitle"]);
    ("USER_CMD", ["cmd"]) ].

(** The double quote. *)
Definition dquote : ascii := ascii_of_nat 34.

(** [s.split(c, maxsplit=1)]: the text before the first [c], and the text
    after it when there is a [c]. *)
Fixpoint split_once (c : ascii) (s : string) : string * option string :=
  match s with
  | EmptyString => (EmptyString, None)
  | String a r =>
      if Ascii.eqb a c then (EmptyString, Some r)
      else let '(k, v) := split_once c r in (String a k, v)
  end.

(** [s.lstrip(c)] and [s.rstrip(c)] for one character. *)
Fixpoint lstrip_char (c : ascii) (s : string) : string :=
  match s with
  | String a r => if Ascii.eqb a c then lstrip_char c r else s
  | EmptyString => EmptyString
  end.

Fixpoint rstrip_char (c : ascii) (s : string) : string :=
  match s with
  | EmptyString => EmptyString
  | String a r =>
      match rstrip_char c r with
      | EmptyString => if Ascii.eqb a c then EmptyString else String a EmptyString
      | r' => String a r'
      end
  end.

(** [s.strip(c)] *)
Definition strip_char (c : ascii) (s : string) : string :=
  rstrip_char c (lstrip_char c s).

(** [s.startswith(c)] *)
Definition starts_with (c : ascii) (s : string) : bool :=
  match s with
  | String a _ => Ascii.eqb a c
  | EmptyString => false
  end.

(** [not encoded_fields_map or key not in encoded_fields_map] *)
Definition not_encoded (encoded_fields_map : option (list string)) (key : string)
  : bool :=
  match encoded_fields_map with
  | None | Some [] => true
  | Some names => negb (existsb (String.eqb key) names)
  end.

Section Unpack.

(** [codecs.decode(bytes(s, "utf-8"), "hex").decode("utf-8")] is the
    library's: [None] stands for its [ValueError].  The text it gives is
    taken to be a text of this model. *)
Variable hex_decode : string -> option string.

(** Lines 126-155: one item of a message, its key and its value. *)
Definition unpack_item (encoded_fields_map : option (list string))
  (rec_item : string) : string * option string :=
  match split_once "=" rec_item with
  | (key, None) => (key, None)
  | (key, Some value) =>
      if not_encoded encoded_fields_map key || starts_with dquote value
      then (key, Some (strip_char dquote value))
      else match hex_decode value with
           | Some text => (key, Some text)
           | None => (key, Some value)
           end
  end.

(** Lines 120-155: the dictionary of one message. *)
Definition unpack_fields (rec_key : string) (rec_val : list string) : raw_fields :=
  fold_left
    (fun rec_dict rec_item =>
       let '(key, value) := unpack_item (PyDict.get rec_key _ENCODED_PARAMS) rec_item in
       PyDict.set key value rec_dict)
    rec_val [].

(** Lines 119-156: the messages of one record. *)
Definition unpack_record (event : message_dict) (record : PyDict.t (list string))
  : message_dict :=
  fold_left
    (fun ev kv => PyDict.set (fst kv) (unpack_fields (fst kv) (snd kv)) ev)
    record event.

Definition unpack_auditd (audit_str : audit_msgs) : message_dict :=
  fold_left unpack_record audit_str [].

(** Line 306: [lambda x: _extract_event(unpack_auditd(x[input_column]))],
    on a cell that holds parsed messages. *)
Definition event_of_messages (msgs : audit_msgs) : result (string * event_dict) :=
  _extract_event (unpack_auditd msgs).

(** Lines 297-306 on one raw line: the line is parsed, then unpacked and
    assembled. *)
Definition event_of_line (line : string) : result (string * event_dict) :=
  msgs <-? _parse_audit_message line ;; event_of_messages msgs.

End Unpack.

(* ================================================================== *)
(** ** Columns to the front, and the events of one type *)

(** The place of index [i] of a slice in a list of [n] items. *)
Definition slice_index (i : Z) (n : nat) : nat :=
  if i <? 0 then Z.to_nat (Z.max 0 (Z.of_nat n + i))
  else Nat.min (Z.to_nat i) n.

(** [l[i:]] and [l[:i]] *)
Definition slice_from {A} (i : Z) (l : list A) : list A :=
  skipn (slice_index i (List.length l)) l.

Definition slice_to {A} (i : Z) (l : list A) : list A :=
  firstn (slice_index i (List.length l)) l.

Definition _move_cols_to_front (data : frame) (column_count : Z) : frame :=
  frame_select
    (slice_from (- column_count) (columns data)
     ++ slice_to (- column_count) (columns data))%list
    data.

(** [df.dropna(axis=1, how="all")]: the columns with a value in some
    row. *)
Definition dropna_columns (f : frame) : frame :=
  frame_select
    (filter (fun c => existsb (fun r => notnull (cell_at c r)) (rows f)) (columns f))
    f.

Definition get_event_subset (data : frame) (event_type : string) : result frame :=
  if has_label "EventType" (columns data) then
    Ok (dropna_columns
          {| columns := columns data;
             rows := filter (fun r => cell_eqb (cell_at "EventType" r) (Str event_type))
                            (rows data) |})
  else Raise KeyError.

(* ================================================================== *)
(** ** [extract_events_to_df]

    Lines 305-347 build the table that is returned.  The tables that they
    join come from [data], and pandas joins them on the index: such a
    table is given with its index, the positions in [data] of its rows.
    What pandas and [datetime] compute is not code of this module: where
    the tables above do not model a function of these libraries, it is
    taken as it is, as a function of its arguments.  The [print]s under
    [verbose] are left out. *)

(** A table with its index. *)
Definition indexed : Type := list nat * frame.

(** The table [tmp_df] of lines 305-312: for each row its place in
    [data], the event type and the event. *)
Definition event_table : Type := list (nat * (string * event_dict)).

(** [df.drop([c], axis=1)] *)
Definition frame_drop (c : string) (f : frame) : result frame :=
  if has_label c (columns f) then
    Ok (frame_select (filter (fun c' => negb (String.eqb c' c)) (columns f)) f)
  else Raise KeyError.

(** Lines 311-312: [if event_type:] the rows with
    [tmp_df["EventType"] == event_type]. *)
Definition of_event_type (event_type : option string) (tmp_df : event_table)
  : event_table :=
  match event_type with
  | None | Some EmptyString => tmp_df
  | Some t => filter (fun x => String.eqb (fst (snd x)) t) tmp_df
  end.

(** [tmp_df[["EventType"]]] *)
Definition event_type_column (tmp_df : event_table) : indexed :=
  (map fst tmp_df,
   {| columns := ["EventType"];
      rows := map (fun x => [("EventType", Str (fst (snd x)))]) tmp_df |}).

Section ExtractEvents.

Variable hex_decode : string -> option string.

(** [tmp_df.apply(lambda x: pd.Series(x.EventData), axis=1)]: the table
    that pandas makes of the dictionaries of the rows. *)
Variable expand_event_data : event_table -> result indexed.

(** [left.merge(right, how="inner", left_index=True, right_index=True)] *)
Variable merge_on_index : indexed -> indexed -> result indexed.

(** [datetime.utcfromtimestamp(float(s))] *)
Variable utcfromtimestamp : string -> result cell.

(** [df[c] = df.apply(f, axis=1)] on a table without rows or without
    columns, where pandas does not apply [f] to a row. *)
Variable assign_apply_of_no_row : string -> frame -> result frame.

(** Line 306: [_extract_event(unpack_auditd(x[input_column]))] on one
    cell.  The loop of [unpack_auditd] over a number raises [TypeError];
    over a [str] it has the characters for records, and [record.items()]
    raises [AttributeError]; over the empty [str] it has no record. *)
Definition event_of_cell (c : cell) : result (string * event_dict) :=
  match c with
  | Msgs m => event_of_messages hex_decode m
  | Str EmptyString => event_of_messages hex_decode []
  | Str _ => Raise AttributeError
  | NaN | Num _ => Raise TypeError
  end.

(** Lines 305-309: the event of each row, in the two columns [EventType]
    and [EventData]. *)
Definition events_of_rows (input_column : string) (f : frame) : result event_table :=
  events <-? map_result (fun r => event_of_cell (cell_at input_column r)) (rows f) ;;
  Ok (combine (seq 0 (List.length events)) events).

(** Lines 324-334: the fields of the events, the event types and the
    other columns of [data], without the columns that have no value. *)
Definition merged_events (input_column : string) (tmp_df : event_table) (f : frame)
  : result frame :=
  expanded <-? expand_event_data tmp_df ;;
  typed <-? merge_on_index expanded (event_type_column tmp_df) ;;
  others <-? frame_drop input_column f ;;
  merged <-? merge_on_index typed (seq 0 (List.length (rows f)), others) ;;
  Ok (dropna_columns (snd merged)).

(** Line 341: [datetime.utcfromtimestamp(float(x["mssg_id"].split(":")[0]))] *)
Definition time_of_row (r : row) : result cell :=
  s <-? as_str (cell_at "mssg_id" r) ;;
  t <-? index (PyStr.split ":" s) 0 ;;
  utcfromtimestamp t.

(** Lines 340-342: the table with the column [TimeStamp]. *)
Definition with_time_stamp (g : frame) : result frame :=
  match rows g, columns g with
  | _ :: _, _ :: _ =>
      if has_label "mssg_id" (columns g) then
        stamps <-? map_result time_of_row (rows g) ;;
        Ok (frame_assign_column "TimeStamp" stamps g)
      else Raise KeyError
  | _, _ => assign_apply_of_no_row "TimeStamp" g
  end.

(** Lines 343-347 *)
Definition with_time_generated (g : frame) : result frame :=
  dropped <-? frame_drop "TimeGenerated" g ;;
  Ok (_move_cols_to_front
        (frame_rename [("TimeStamp", "TimeGenerated")] dropped) 5).

(** [extract_events_to_df(data, input_column, event_type)]: [data] is an
    address of the heap, the result is the address of the new table.
    The table of line 324 is a new table, and line 340 assigns to it. *)
Definition extract_events_to_df (data : addr) (input_column : string)
  (event_type : option string) : M addr :=
  extract_events_to_df_inplace data input_column ;;;
  f <- read data ;;
  events <- lift (events_of_rows input_column f) ;;
  merged <- lift (merged_events input_column (of_event_type event_type events) f) ;;
  tmp_df <- alloc merged ;;
  g <- read tmp_df ;;
  stamped <- lift (with_time_stamp g) ;;
  modify tmp_df (fun _ => stamped) ;;;
  g' <- read tmp_df ;;
  final <- lift (with_time_generated g') ;;
  alloc final.

End ExtractEvents.

(* ================================================================== *)
(** ** The vocabulary of the properties *)

Unset Implicit Arguments.

(** The name a field gets when it collides. *)
Definition suffixed (mssg_type fieldname : string) : string :=
  fieldname ++ "_" ++ mssg_type.

(** The name under which [store] writes. *)
Definition store_key (T f : string) (event : event_dict) : string :=
  if PyDict.mem f event then suffixed T f else f.

(** No string occurs twice. *)
Fixpoint nodupb (l : list string) : bool :=
  match l with
  | [] => true
  | x :: r => negb (existsb (String.eqb x) r) && nodupb r
  end.

(** The names of a schema are distinct, and none of them is the suffixed
    form of another. *)
Definition schema_ok (T : string) (defs : field_defs) : bool :=
  nodupb (PyDict.keys defs)
  && forallb (fun f =>
       forallb (fun g => negb (String.eqb f (suffixed T g))) (PyDict.keys defs))
       (PyDict.keys defs).

(** The fields of [pre] all have a value, so that the loop goes past
    them. *)
Definition reached (fields : raw_fields) (pre : field_defs) : Prop :=
  forall g, In g (PyDict.keys pre) -> truthy_value fields g <> None.

(** Every field of type [int] that has a value has one that [int]
    reads. *)
Definition ints_parse (fields : raw_fields) (defs : field_defs) : Prop :=
  forall g s, In (g, Some "int") defs -> truthy_value fields g = Some s ->
              PyStr.to_int s <> None.

(** The names that the loop of a type can write. *)
Definition written_names (T : string) (defs : field_defs) : list string :=
  flat_map (fun g => [g; suffixed T g]) (PyDict.keys defs).

(** The name [a<i>] of an argument from the fourth on. *)
Definition high_arg (k : string) : bool :=
  match k with
  | String c t =>
      Ascii.eqb c "a"
      && match NilEmpty.uint_of_string t with
         | Some d => (3 <=? Nat.of_uint d)%nat
         | None => false
         end
  | EmptyString => false
  end.

(** What the command line takes for argument [i]: the text of [a0], [a1]
    or [a2] of the EXECVE message, and the empty string from the fourth
    argument on, which the schema does not list. *)
Definition execve_arg (exe : raw_fields) (i : nat) : string :=
  if (i <? 3)%nat then
    match truthy_value exe ("a" ++ PyStr.of_nat i) with
    | Some v => v
    | None => ""
    end
  else "".

(** The entry of EXECVE in [_FIELD_DEFS]. *)
Definition execve_defs : field_defs :=
  [ ("argc", Some "int"); ("a0", None); ("a1", None); ("a2", None) ].

(** The command line in the words of the specification: [argc] read from the EXECVE
    fields, 1 when it is absent, and the values of [a0] to [a(argc-1)]
    joined with single spaces. *)
Definition spec_cmdline (exe : raw_fields) : option string :=
  let argc := match PyDict.get "argc" exe with
              | Some (Some s) => PyStr.to_int s
              | _ => Some 1
              end in
  match argc with
  | Some n =>
      Some (PyStr.join " "
              (map (fun i => match PyDict.get ("a" ++ PyStr.of_nat i) exe with
                             | Some (Some v) => v
                             | _ => ""
                             end)
                   (seq 0 (Z.to_nat n))))
  | None => None
  end.

(** A process creation with four arguments. *)
Definition tar_execve : raw_fields :=
  [ ("argc", Some "4"); ("a0", Some "tar"); ("a1", Some "-x");
    ("a2", Some "-f"); ("a3", Some "logs.tar") ].

Definition tar_record : message_dict :=
  [ ("SYSCALL", [("success", Some "yes"); ("ppid", Some "1"); ("pid", Some "100")]);
    ("EXECVE", tar_execve) ].

(** Tables of process rows: the columns that [generate_process_tree]
    reads, and a row from its time stamp, [pid] and [ppid]. *)
Definition proc_columns : list string :=
  ["TimeGenerated"; "exe"; "cmd"; "pid"; "uid"; "cwd"; "ppid"].

Definition proc_row (time pid ppid : Z) : row :=
  [ ("TimeGenerated", Num time); ("exe", Str "/bin/sh"); ("cmd", Str "sh");
    ("pid", Num pid); ("uid", Num 0); ("cwd", Str "/"); ("ppid", Num ppid) ].

(** The rows of the table that [m] returns, run on the heap [h]. *)
Definition result_rows (m : M addr) (h : heap) : option (list row) :=
  match m h with
  | (Return a, h') => Some (rows (nth a h' empty_frame))
  | _ => None
  end.

(** The row of the tree for [proc_row time pid ppid]. *)
Definition tree_row (time pid ppid : Z) (role : string) (level : Z) : row :=
  [ ("TimeGenerated", Num time); ("NewProcessName", Str "/bin/sh");
    ("CommandLine", Str "sh"); ("NewProcessId", Num pid);
    ("SubjectUserSid", Num 0); ("cwd", Str "/"); ("ProcessId", Num ppid);
    ("NodeRole", Str role); ("Level", Num level) ].

(** Process 1 starts 2 and 3; 2 starts 4 and 3 starts 5. *)
Definition fan_out : frame :=
  {| columns := proc_columns;
     rows := [ proc_row 10 1 0; proc_row 20 2 1; proc_row 30 3 1;
               proc_row 40 4 2; proc_row 50 5 3 ] |}.

(** The seeds: process 1. *)
Definition seed_1 : frame :=
  {| columns := proc_columns; rows := [ proc_row 10 1 0 ] |}.

(** Process 1 starts 2 at time 20; a process 3 with parent 2 is in the
    log at time 5, before the seed (a process id used again). *)
Definition reused_pid : frame :=
  {| columns := proc_columns;
     rows := [ proc_row 10 1 0; proc_row 20 2 1; proc_row 5 3 2 ] |}.

(** [h] has the tables of [h1], as they are in [h1], and maybe new ones
    after them. *)
Definition extends (h1 h : heap) : Prop := exists extra, h = (h1 ++ extra)%list.

(** [safe h1 Q m]: run on a heap that extends [h1], the computation [m]
    does not run out of fuel, leaves a heap that extends [h1] (no table of
    [h1] is written), and returns a value that satisfies [Q]. *)
Definition safe {A} (h1 : heap) (Q : A -> Prop) (m : M A) : Prop :=
  forall h, extends h1 h ->
    match m h with
    | (Return a, h') => extends h1 h' /\ Q a
    | (Throw _, h') => extends h1 h'
    | (NoFuel, _) => False
    end.

(** An address that is not one of [h1]. *)
Definition fresh (h1 : heap) (a : addr) : Prop := (List.length h1 <= a)%nat.

(** The table of the last generation in the state of a walk. *)
Definition table_of (st : walk_state) : addr := snd (fst st).

(** The rounds a [while] of the walk still has to go. *)
Definition rounds_left (branch_depth : Z) (st : walk_state) : nat :=
  Z.to_nat (branch_depth + 1 - count_of st).

(** What [generate_process_tree] does to a table of seeds that has
    neither a [NodeRole] nor a [Level] column. *)
Definition tag_seeds (f : frame) : frame :=
  if negb (has_label "NodeRole" (columns f)) && negb (has_label "Level" (columns f))
  then frame_assign "Level" (Num 0) (frame_assign "NodeRole" (Str "source") f)
  else f.

(** The heap after the first lines of [generate_process_tree] on the seeds
    at address [p]. *)
Definition heap_tagged (p : addr) (h : heap) : heap :=
  let f := nth p h empty_frame in
  if negb (has_label "NodeRole" (columns f)) && negb (has_label "Level" (columns f))
  then
    let h' := replace_nth p (frame_assign "NodeRole" (Str "source") f) h in
    replace_nth p (frame_assign "Level" (Num 0) (nth p h' empty_frame)) h'
  else h.



(** The event of this line, and what the libraries make of it (one row,
    one field, no label twice): the table of the fields of the event, this
    table with the event type, the other columns of the data after lines
    293-299, and the three together. *)
Definition cwd_events : event_table :=
  [ (0%nat, ("CWD", [("cwd", VStr "2F")])) ].

Definition cwd_fields : indexed :=
  ([0%nat], {| columns := ["cwd"]; rows := [[("cwd", Str "2F")]] |}).

Definition cwd_typed : indexed :=
  ([0%nat],
   {| columns := ["cwd"; "EventType"];
      rows := [[("cwd", Str "2F"); ("EventType", Str "CWD")]] |}).

Definition timed_others : indexed :=
  ([0%nat],
   {| columns := ["TimeGenerated"; "mssg_id"];
      rows := [[("TimeGenerated", Num 1560515433);
                ("mssg_id", Str "1560515432.106")]] |}).

Definition cwd_merged : indexed :=
  ([0%nat],
   {| columns := ["cwd"; "EventType"; "TimeGenerated"; "mssg_id"];
      rows := [[("cwd", Str "2F"); ("EventType", Str "CWD");
                ("TimeGenerated", Num 1560515433);
                ("mssg_id", Str "1560515432.106")]] |}).

(** The libraries on the line of [timed_lines]: the three tables above,
    and a time for the text of the time stamp. *)
Definition libraries_on_timed_lines
  (expand_event_data : event_table -> result indexed)
  (merge_on_index : indexed -> indexed -> result indexed)
  (utcfromtimestamp : string -> result cell) : Prop :=
  expand_event_data cwd_events = Ok cwd_fields
  /\ merge_on_index cwd_fields (event_type_column cwd_events) = Ok cwd_typed
  /\ merge_on_index cwd_typed timed_others = Ok cwd_merged
  /\ exists t, utcfromtimestamp "1560515432.106" = Ok t.

(** Every character of [s] satisfies [p]. *)
Fixpoint all_chars (p : ascii -> bool) (s : string) : bool :=
  match s with
  | EmptyString => true
  | String a r => p a && all_chars p r
  end.

(** No character of [s] is [c]. *)
Definition free_of (c : ascii) (s : string) : bool :=
  all_chars (fun a => negb (Ascii.eqb a c)) s.

(** The merge of the general path for types outside the schema. *)
Definition raw_merge (items : message_dict) (event : event_dict) : event_dict :=
  fold_left (fun ev kv => PyDict.update of_raw ev (snd kv)) items event.

(** [": "] occurs in [s]. *)
Fixpoint has_colon_space (s : string) : bool :=
  match s with
  | EmptyString => false
  | String c r =>
      match PyStr.drop_prefix ": " s with
      | Some _ => true
      | None => has_colon_space r
      end
  end.

(** The header of a line of the log. *)
Definition audit_header (T payload : string) : string :=
  "type=" ++ T ++ " msg=audit(" ++ payload ++ ")".

(** The characters of a payload: no closing parenthesis and no [m]. *)
Definition payload_char (c : ascii) : bool :=
  negb (Ascii.eqb c ")") && negb (Ascii.eqb c "m").

(** The row of [frame_select]. *)
Definition project (cols : list string) (r : row) : row :=
  map (fun c => (c, cell_at c r)) cols.

(** The rows of [data] whose event type is [event_type]. *)
Definition rows_of_type (data : frame) (event_type : string) : list row :=
  filter (fun r => cell_eqb (cell_at "EventType" r) (Str event_type)) (rows data).

(** [m], run on [h], returns [a] and leaves the heap [h']. *)
Definition returns {A} (m : M A) (h : heap) (a : A) (h' : heap) : Prop :=
  m h = (Return a, h').

(** The two assignments of [pd.tag]. *)
Definition tagged_frame (role : string) (level : Z) (f : frame) : frame :=
  frame_assign "Level" (Num level) (frame_assign "NodeRole" (Str role) f).

(** The rows of the tree from the rows of the renamed walks and of the
    seeds. *)
Definition final_rows (rows0 : list row) : list row :=
  dedup []
    (filter (fun r => notnull (cell_at "NewProcessId" r))
       (map (project tree_columns) (sort_rows "TimeGenerated" rows0))).

(** The run of [generate_process_tree] on the table [reused_pid]. *)
Definition reused_pid_run : outcome addr * heap :=
  Eval vm_compute in
    generate_process_tree 5 0%nat 4 (Some 1%nat) [reused_pid; seed_1].

(** The order of [sort_values]. *)
Definition time_leb (r1 r2 : row) : Prop :=
  cell_leb (cell_at "TimeGenerated" r1) (cell_at "TimeGenerated" r2) = true.

(** A row of a walk: tagged parent or child, at a level from 1 on. *)
Definition walk_row (r : row) : Prop :=
  (cell_at "NodeRole" r = Str "parent" \/ cell_at "NodeRole" r = Str "child")
  /\ exists n, cell_at "Level" r = Num n /\ 1 <= n.

(** The table at [tree] exists and has rows of walks only. *)
Definition walk_tree (h : heap) (tree : addr) : Prop :=
  (tree < List.length h)%nat
  /\ Forall walk_row (rows (nth tree h empty_frame)).

(** The invariant of the loops of a walk, from the heap [hs] on. *)
Definition walk_inv (hs : heap) (st : walk_state) (h : heap) : Prop :=
  extends hs h /\ walk_tree h (tree_of st) /\ 1 <= count_of st.


(* ================================================================== *)
(** * Properties *)

(** ** Dictionaries *)

Section DictFacts.
Variable V : Type.
Implicit Types (d : PyDict.t V) (k : string) (v : V).

Lemma get_set_same k v d : PyDict.get k (PyDict.set k v d) = Some v.
Proof.
  induction d as [|[k' v'] r IH]; simpl.
  - now rewrite String.eqb_refl.
  - destruct (String.eqb k k') eqn:E; simpl; rewrite E; auto.
Qed.

Lemma get_set_other k k' v d :
  k <> k' -> PyDict.get k (PyDict.set k' v d) = PyDict.get k d.
Proof.
  intros N. induction d as [|[k0 v0] r IH]; simpl.
  - apply String.eqb_neq in N. now rewrite N.
  - destruct (String.eqb k' k0) eqn:E; simpl.
    + apply String.eqb_eq in E. subst k0.
      apply String.eqb_neq in N. now rewrite N.
    + now rewrite IH.
Qed.

Lemma mem_set_same k v d : PyDict.mem k (PyDict.set k v d) = true.
Proof. unfold PyDict.mem. now rewrite get_set_same. Qed.

Lemma mem_set_other k k' v d :
  k <> k' -> PyDict.mem k (PyDict.set k' v d) = PyDict.mem k d.
Proof. intros N. unfold PyDict.mem. now rewrite get_set_other. Qed.

Lemma mem_set_mono k k' v d :
  PyDict.mem k d = true -> PyDict.mem k (PyDict.set k' v d) = true.
Proof.
  intros H. destruct (string_dec k k') as [->|N].
  - apply mem_set_same.
  - now rewrite mem_set_other.
Qed.


Lemma get_In k v d : PyDict.get k d = Some v -> In (k, v) d.
Proof.
  induction d as [|[k' v'] r IH]; simpl; [discriminate|].
  destruct (String.eqb k k') eqn:E.
  - apply String.eqb_eq in E. intros [= ->]. subst. now left.
  - intros H. right. auto.
Qed.

Lemma get_In_keys k v d : PyDict.get k d = Some v -> In k (PyDict.keys d).
Proof.
  intros H. apply get_In in H. change k with (fst (k, v)).
  now apply in_map.
Qed.

Lemma mem_In_keys k d : PyDict.mem k d = true <-> In k (PyDict.keys d).
Proof.
  unfold PyDict.mem. induction d as [|[k' v'] r IH]; simpl.
  - split; [discriminate | tauto].
  - destruct (String.eqb k k') eqn:E.
    + apply String.eqb_eq in E. subst. split; auto.
    + apply String.eqb_neq in E. rewrite IH. split; auto.
      intros [H|H]; auto. now subst.
Qed.

End DictFacts.

(** [d.update(other)]: the keys of [other] take the values of [other], the
    other keys keep theirs, and no key comes from elsewhere. *)
Section UpdateFacts.
Variables V W : Type.
Variable f : W -> V.

Lemma get_update_other k (d : PyDict.t V) (other : PyDict.t W) :
  ~ In k (PyDict.keys other) ->
  PyDict.get k (PyDict.update f d other) = PyDict.get k d.
Proof.
  unfold PyDict.update. revert d.
  induction other as [|[k' w] r IH]; intros d N; simpl; auto.
  simpl in N. rewrite IH by tauto.
  apply get_set_other. intros ->. tauto.
Qed.

Lemma get_update_in k w (d : PyDict.t V) (other : PyDict.t W) :
  NoDup (PyDict.keys other) ->
  PyDict.get k other = Some w ->
  PyDict.get k (PyDict.update f d other) = Some (f w).
Proof.
  unfold PyDict.update. revert d.
  induction other as [|[k' w'] r IH]; intros d ND G; simpl in *; [discriminate|].
  inversion ND as [|? ? NI ND']; subst.
  destruct (String.eqb k k') eqn:E.
  - apply String.eqb_eq in E. subst k'. injection G as ->.
    change (fold_left _ r ?x) with (PyDict.update f x r).
    rewrite get_update_other by assumption. apply get_set_same.
  - now apply IH.
Qed.

Lemma mem_update k (d : PyDict.t V) (other : PyDict.t W) :
  PyDict.mem k (PyDict.update f d other)
  = PyDict.mem k d || PyDict.mem k other.
Proof.
  unfold PyDict.update. revert d.
  induction other as [|[k' w] r IH]; intros d; simpl.
  - now rewrite orb_false_r.
  - rewrite IH.
    assert (C : PyDict.mem k ((k', w) :: r)
                = String.eqb k k' || PyDict.mem k r).
    { unfold PyDict.mem. simpl. now destruct (String.eqb k k'). }
    rewrite C. destruct (String.eqb k k') eqn:E.
    + apply String.eqb_eq in E. subst k'.
      rewrite mem_set_same. simpl. now rewrite orb_true_r.
    + apply String.eqb_neq in E. rewrite mem_set_other by assumption.
      reflexivity.
Qed.
End UpdateFacts.

(** ** Strings *)

Lemma list_ascii_of_append (a b : string) :
  list_ascii_of_string (a ++ b)
  = (list_ascii_of_string a ++ list_ascii_of_string b)%list.
Proof. induction a as [|c a IH]; simpl; [reflexivity | now rewrite IH]. Qed.

Lemma append_cancel_r (a b s : string) : a ++ s = b ++ s -> a = b.
Proof.
  intros H. apply (f_equal list_ascii_of_string) in H.
  rewrite !list_ascii_of_append in H. apply app_inv_tail in H.
  rewrite <- (string_of_list_ascii_of_string a),
          <- (string_of_list_ascii_of_string b).
  now rewrite H.
Qed.

(** ** The loop of [_extract_mssg_value] *)

Lemma suffixed_inj T f g : suffixed T f = suffixed T g -> f = g.
Proof. unfold suffixed. apply append_cancel_r. Qed.

Section StoreFacts.
Variables (T f : string) (v : pyval) (event : event_dict).

Lemma store_get : PyDict.get (store_key T f event) (store T f v event) = Some v.
Proof.
  unfold store_key, store, suffixed.
  destruct (PyDict.mem f event); apply get_set_same.
Qed.

Lemma store_other k :
  k <> f -> k <> suffixed T f ->
  PyDict.get k (store T f v event) = PyDict.get k event.
Proof.
  intros N1 N2. unfold store. fold (suffixed T f).
  destruct (PyDict.mem f event); now apply get_set_other.
Qed.

(** A key that is present is only written under a suffixed name. *)
Lemma store_present k :
  PyDict.mem k event = true -> k <> suffixed T f ->
  PyDict.get k (store T f v event) = PyDict.get k event.
Proof.
  intros P N. unfold store. fold (suffixed T f).
  destruct (PyDict.mem f event) eqn:E.
  - now apply get_set_other.
  - apply get_set_other. intros ->. congruence.
Qed.

Lemma store_mem_mono k :
  PyDict.mem k event = true -> PyDict.mem k (store T f v event) = true.
Proof.
  intros P. unfold store. destruct (PyDict.mem f event); now apply mem_set_mono.
Qed.


Lemma store_mem_other k :
  k <> f -> k <> suffixed T f ->
  PyDict.mem k (store T f v event) = PyDict.mem k event.
Proof. intros. unfold PyDict.mem. now rewrite store_other. Qed.
End StoreFacts.

(** One round of the loop that goes on: the field has a value and the
    value converts. *)
Lemma extract_fields_cons T fields f c rest event event' :
  extract_fields T fields ((f, c) :: rest) event = Ok event' ->
  truthy_value fields f = None /\ event' = event
  \/ exists s v, truthy_value fields f = Some s /\ convert c s = Ok v
                 /\ extract_fields T fields rest (store T f v event) = Ok event'.
Proof.
  simpl. destruct (truthy_value fields f) as [s|].
  - destruct (convert c s) as [v|e] eqn:C; simpl; [|discriminate].
    intros H. right. exists s, v. auto.
  - intros [= <-]. now left.
Qed.

Section LoopFacts.
Variables (T : string) (fields : raw_fields).

(** Keys are never removed. *)
Lemma extract_fields_mem_mono defs : forall event event' k,
  extract_fields T fields defs event = Ok event' ->
  PyDict.mem k event = true -> PyDict.mem k event' = true.
Proof.
  induction defs as [|[f c] rest IH]; intros event event' k H P.
  - simpl in H. now injection H as <-.
  - apply extract_fields_cons in H as [[_ ->]|(s & v & _ & _ & H)]; auto.
    eapply IH; eauto. now apply store_mem_mono.
Qed.

(** A key that is present is only overwritten under the suffixed name of
    a field of the schema: the first writer keeps the bare name. *)
Lemma extract_fields_present defs : forall event event' k,
  extract_fields T fields defs event = Ok event' ->
  PyDict.mem k event = true ->
  (forall g, In g (PyDict.keys defs) -> k <> suffixed T g) ->
  PyDict.get k event' = PyDict.get k event.
Proof.
  induction defs as [|[f c] rest IH]; intros event event' k H P N.
  - simpl in H. now injection H as <-.
  - apply extract_fields_cons in H as [[_ ->]|(s & v & _ & _ & H)]; auto.
    rewrite (IH _ _ k H).
    + apply store_present; auto. apply N. now left.
    + now apply store_mem_mono.
    + intros g G. apply N. now right.
Qed.

(** The keys that are written are names of the schema, bare or
    suffixed. *)
Lemma extract_fields_other defs : forall event event' k,
  extract_fields T fields defs event = Ok event' ->
  (forall g, In g (PyDict.keys defs) -> k <> g /\ k <> suffixed T g) ->
  PyDict.get k event' = PyDict.get k event.
Proof.
  induction defs as [|[f c] rest IH]; intros event event' k H N.
  - simpl in H. now injection H as <-.
  - apply extract_fields_cons in H as [[_ ->]|(s & v & _ & _ & H)]; auto.
    rewrite (IH _ _ k H).
    + apply store_other; apply N; now left.
    + intros g G. apply N. now right.
Qed.



(** The loop raises nothing but the [ValueError] of [int]. *)
Lemma extract_fields_raises defs : forall event e,
  extract_fields T fields defs event = Raise e -> e = ValueError.
Proof.
  induction defs as [|[f c] rest IH]; intros event e; simpl; [discriminate|].
  destruct (truthy_value fields f) as [s|]; [|discriminate].
  unfold convert. destruct c as [c|]; simpl; eauto.
  destruct (String.eqb c "int"); simpl; eauto.
  destruct (PyStr.to_int s); simpl; eauto. now intros [= <-].
Qed.
End LoopFacts.

(** ** The schema *)

Lemma nodupb_NoDup l : nodupb l = true -> NoDup l.
Proof.
  induction l as [|x r IH]; simpl; intros H; constructor.
  - apply andb_true_iff in H as [H _]. apply negb_true_iff in H.
    intros I. assert (E : existsb (String.eqb x) r = true).
    { apply existsb_exists. exists x. split; auto. apply String.eqb_refl. }
    congruence.
  - apply andb_true_iff in H as [_ H]. auto.
Qed.

Lemma field_defs_checked :
  forallb (fun td => schema_ok (fst td) (snd td)) _FIELD_DEFS = true.
Proof. vm_compute. reflexivity. Qed.

Lemma schema_ok_spec T defs :
  schema_ok T defs = true ->
  NoDup (PyDict.keys defs)
  /\ forall f g, In f (PyDict.keys defs) -> In g (PyDict.keys defs) ->
                 f <> suffixed T g.
Proof.
  unfold schema_ok. intros H. apply andb_true_iff in H as [H1 H2]. split.
  - now apply nodupb_NoDup.
  - intros f g F G. rewrite forallb_forall in H2. specialize (H2 f F).
    rewrite forallb_forall in H2. specialize (H2 g G).
    apply negb_true_iff in H2. now apply String.eqb_neq.
Qed.

Lemma field_defs_wf T defs :
  PyDict.get T _FIELD_DEFS = Some defs ->
  NoDup (PyDict.keys defs)
  /\ forall f g, In f (PyDict.keys defs) -> In g (PyDict.keys defs) ->
                 f <> suffixed T g.
Proof.
  intros G. apply get_In in G. apply schema_ok_spec.
  pose proof field_defs_checked as C. rewrite forallb_forall in C.
  apply (C (T, defs) G).
Qed.

Lemma extract_mssg_value_eq T md defs fields event :
  PyDict.get T _FIELD_DEFS = Some defs ->
  PyDict.get T md = Some fields ->
  _extract_mssg_value T md event = extract_fields T fields defs event.
Proof.
  intros D F. unfold _extract_mssg_value. rewrite D, F. now destruct defs.
Qed.

Lemma keys_app {V} (a b : PyDict.t V) :
  PyDict.keys (a ++ b)%list = (PyDict.keys a ++ PyDict.keys b)%list.
Proof. apply map_app. Qed.

Section Produced.
Variables (T : string) (fields : raw_fields).
Variables (f : string) (c : option string) (post : field_defs).
Variables (s : string) (v : pyval).
Hypothesis Hvalue : truthy_value fields f = Some s.
Hypothesis Hconv : convert c s = Ok v.

(** A field that the loop reaches is in the event at the end, under its
    name when the name was free and under the suffixed name when not. *)
Lemma extract_fields_produces pre : forall event event',
  NoDup (PyDict.keys (pre ++ (f, c) :: post)%list) ->
  (forall a b, In a (PyDict.keys (pre ++ (f, c) :: post)%list) ->
               In b (PyDict.keys (pre ++ (f, c) :: post)%list) ->
               a <> suffixed T b) ->
  reached fields pre ->
  extract_fields T fields (pre ++ (f, c) :: post)%list event = Ok event' ->
  PyDict.get (store_key T f event) event' = Some v.
Proof.
  induction pre as [|[g cg] pre IH]; intros event event' ND SX R H.
  - simpl in *.
    apply extract_fields_cons in H as [[E _]|(s' & v' & E & C & H)];
      [congruence|].
    rewrite Hvalue in E. injection E as <-.
    rewrite Hconv in C. injection C as <-.
    rewrite (extract_fields_present T fields _ _ _ _ H).
    + apply store_get.
    + unfold PyDict.mem. now rewrite store_get.
    + intros g G. unfold store_key.
      inversion ND as [|? ? NI _]; subst.
      destruct (PyDict.mem f event).
      * intros E. apply suffixed_inj in E. subst g. contradiction.
      * apply SX; [now left | now right].
  - simpl in H.
    apply extract_fields_cons in H as [[E _]|(s' & v' & E & C & H)].
    { exfalso. apply (R g); [now left | assumption]. }
    assert (Fg : f <> g).
    { simpl in ND. inversion ND as [|? ? NI _]; subst. intros <-.
      apply NI. rewrite keys_app. apply in_or_app. right. now left. }
    assert (Fs : f <> suffixed T g).
    { apply SX; [|now left]. right. rewrite keys_app.
      apply in_or_app. right. now left. }
    assert (K : store_key T f (store T g v' event) = store_key T f event).
    { unfold store_key. now rewrite store_mem_other. }
    rewrite <- K. apply IH; auto.
    + simpl in ND. now inversion ND.
    + intros a b A B. apply SX; now right.
    + intros g' G'. apply R. now right.
Qed.
End Produced.

(** When every [int] reads, the loop returns an event. *)
Lemma extract_fields_returns T fields defs : forall event,
  ints_parse fields defs ->
  exists event', extract_fields T fields defs event = Ok event'.
Proof.
  induction defs as [|[f c] rest IH]; intros event IP; simpl; eauto.
  destruct (truthy_value fields f) as [s|] eqn:E; eauto.
  assert (C : exists v, convert c s = Ok v).
  { unfold convert. destruct c as [c|]; eauto.
    destruct (String.eqb c "int") eqn:I; eauto.
    apply String.eqb_eq in I. subst c.
    destruct (PyStr.to_int s) eqn:P; eauto.
    exfalso. apply (IP f s); auto. now left. }
  destruct C as [v ->]. simpl. apply IH.
  intros g t G. apply IP. now right.
Qed.

(** ** Integer fields and the sentinel *)

(** C8. A field of schema type [int] that the loop reaches and whose text
    [int] reads as [n] is in the event as the integer [n], except that
    4294967295 is there as -1; it is under its name, or under the suffixed
    name when the name was taken.  The event exists when every [int] field
    of the message reads. *)
Theorem int_field_decoding :
  forall T defs pre f post (md : message_dict) (fields : raw_fields)
         (event : event_dict) s n,
    PyDict.get T _FIELD_DEFS = Some defs ->
    defs = (pre ++ (f, Some "int") :: post)%list ->
    PyDict.get T md = Some fields ->
    reached fields pre ->
    truthy_value fields f = Some s ->
    PyStr.to_int s = Some n ->
    (forall event',
        _extract_mssg_value T md event = Ok event' ->
        PyDict.get (store_key T f event) event'
        = Some (VInt (if n =? 4294967295 then -1 else n)))
    /\ (ints_parse fields defs ->
        exists event', _extract_mssg_value T md event = Ok event').
Proof.
  intros T defs pre f post md fields event s n D E F R V P.
  rewrite (extract_mssg_value_eq _ _ _ _ event D F).
  destruct (field_defs_wf _ _ D) as [ND SX]. split.
  - intros event' H. subst defs.
    eapply extract_fields_produces; eauto.
    unfold convert. simpl. now rewrite P.
  - intros IP. now apply extract_fields_returns.
Qed.

Lemma int_field_decoding_witness :
  PyDict.get (store_key "LOGIN" "uid" [("pid", VInt 7)])
             [("pid", VInt 7); ("uid", VInt (-1))]
  = Some (VInt (if 4294967295 =? 4294967295 then -1 else 4294967295)).
Proof.
  refine (proj1 (int_field_decoding "LOGIN" _ [("pid", Some "int")] "uid" _
                   [("LOGIN", [("pid", Some "7"); ("uid", Some "4294967295")])]
                   _ [] "4294967295" 4294967295
                   eq_refl eq_refl eq_refl _ eq_refl eq_refl) _ eq_refl).
  intros g [<-|[]]. discriminate.
Defined.

(** ** The two rules for a name that is taken *)

(** C3. One round of the loop of the general path, on an event that has
    the name already.  A type of the schema that reaches field [f] with
    value [v] puts [v] under [f_T] and leaves the value under [f] as it
    was.  A type that is not in the schema puts its own value under the
    name itself, and adds no other name than its own. *)
Theorem collision_rule :
  (forall T defs pre f c post (md : message_dict) (fields : raw_fields) x
          (event event' : event_dict) s v,
      PyDict.get T _FIELD_DEFS = Some defs ->
      defs = (pre ++ (f, c) :: post)%list ->
      PyDict.get T md = Some fields ->
      reached fields pre ->
      truthy_value fields f = Some s ->
      convert c s = Ok v ->
      PyDict.mem f event = true ->
      general_loop [(T, x)] md event = Ok event' ->
      PyDict.get (f ++ "_" ++ T) event' = Some v
      /\ PyDict.get f event' = PyDict.get f event)
  /\
  (forall T (md : message_dict) (fields : raw_fields) x (event : event_dict) k w,
      PyDict.get T _FIELD_DEFS = None ->
      PyDict.get T md = Some fields ->
      NoDup (PyDict.keys fields) ->
      PyDict.get k fields = Some w ->
      PyDict.mem k event = true ->
      exists event',
        general_loop [(T, x)] md event = Ok event'
        /\ PyDict.get k event' = Some (of_raw w)
        /\ forall k', PyDict.mem k' event'
                      = PyDict.mem k' event || PyDict.mem k' fields).
Proof.
  split.
  - intros T defs pre f c post md fields x event event' s v D E F R V C M H.
    cbn [general_loop] in H. unfold PyDict.mem in H at 1. rewrite D in H.
    rewrite (extract_mssg_value_eq _ _ _ _ event D F) in H.
    destruct (extract_fields T fields defs event) as [e1|] eqn:X;
      simpl in H; [|discriminate].
    injection H as <-.
    destruct (field_defs_wf _ _ D) as [ND SX]. split.
    + subst defs.
      pose proof (extract_fields_produces T fields f c post s v V C pre _ _ ND SX R X) as G.
      unfold store_key in G. now rewrite M in G.
    + apply (extract_fields_present _ _ _ _ _ f X M).
      intros g G. apply SX; auto. subst defs. rewrite keys_app.
      apply in_or_app. right. now left.
  - intros T md fields x event k w D F ND G M.
    exists (PyDict.update of_raw event fields). split.
    { cbn [general_loop]. unfold PyDict.mem. rewrite D, F. reflexivity. }
    split.
    + now apply get_update_in.
    + intros k'. apply mem_update.
Qed.

Lemma collision_rule_witness :
  (PyDict.get ("pid" ++ "_" ++ "USER_CMD")
     [("pid", VInt 1); ("pid_USER_CMD", VInt 2)] = Some (VInt 2)
   /\ PyDict.get "pid" [("pid", VInt 1); ("pid_USER_CMD", VInt 2)]
      = PyDict.get "pid" [("pid", VInt 1)])
  /\ exists event',
      general_loop [("PATH", [])]
        [("PATH", [("name", Some "/bin/ls")])] [("name", VStr "x")] = Ok event'
      /\ PyDict.get "name" event' = Some (of_raw (Some "/bin/ls"))
      /\ forall k', PyDict.mem k' event'
                    = PyDict.mem k' [("name", VStr "x")]
                      || PyDict.mem k' [("name", Some "/bin/ls")].
Proof.
  split.
  - refine (proj1 collision_rule "USER_CMD" _ [] "pid" (Some "int") _
              [("USER_CMD", [("pid", Some "2")])] _ [] [("pid", VInt 1)] _
              "2" (VInt 2) eq_refl eq_refl eq_refl _ eq_refl eq_refl eq_refl
              eq_refl).
    intros g [].
  - refine (proj2 collision_rule "PATH" [("PATH", [("name", Some "/bin/ls")])]
              _ [] [("name", VStr "x")] "name" (Some "/bin/ls")
              eq_refl eq_refl _ eq_refl eq_refl).
    repeat constructor; simpl; tauto.
Defined.

(** The two rules on whole records: LOGIN then USER_CMD, both of the
    schema and both with [pid]; PATH then SOCKADDR, neither of the schema
    and both with [name]. *)
Example collision_of_schema_types :
  _extract_event [ ("LOGIN", [("pid", Some "1")]); ("USER_CMD", [("pid", Some "2")]) ]
  = Ok ("LOGIN", [("pid", VInt 1); ("pid_USER_CMD", VInt 2)]).
Proof. reflexivity. Qed.

Example collision_of_other_types :
  _extract_event [ ("PATH", [("name", Some "/bin/ls")]);
                   ("SOCKADDR", [("name", Some "/run/x")]) ]
  = Ok ("PATH", [("name", VStr "/run/x")]).
Proof. reflexivity. Qed.

(** ** Only the fields of the schema *)



Lemma single_not_composite T (fields : raw_fields) :
  PyDict.mem "SYSCALL" [(T, fields)] && PyDict.mem "EXECVE" [(T, fields)] = false.
Proof.
  unfold PyDict.mem. cbn [PyDict.get].
  destruct (String.eqb "SYSCALL" T) eqn:A;
    destruct (String.eqb "EXECVE" T) eqn:B; try reflexivity.
  apply String.eqb_eq in A, B. congruence.
Qed.



(** ** A field without a value *)

(** C4 (the code stops at the field).  A LOGIN message with [pid], no
    [uid], and then [tty] and [ses]: the loop returns at [uid], and [tty]
    and [ses], which have values, are not in the event. *)
Theorem missing_field_drops_the_rest :
  _extract_event
    [("LOGIN", [("pid", Some "100"); ("tty", Some "pts0"); ("ses", Some "3")])]
  = Ok ("LOGIN", [("pid", VInt 100)]).
Proof. reflexivity. Qed.

(** ** An integer that does not read *)

Lemma convert_int_fails s : PyStr.to_int s = None -> convert (Some "int") s = Raise ValueError.
Proof. intros H. unfold convert. simpl. now rewrite H. Qed.

Lemma extract_fields_int_fails T (fields : raw_fields) f post s pre :
  forall event : event_dict,
    reached fields pre ->
    ints_parse fields pre ->
    truthy_value fields f = Some s ->
    PyStr.to_int s = None ->
    extract_fields T fields (pre ++ (f, Some "int") :: post)%list event
    = Raise ValueError.
Proof.
  induction pre as [|[g c] pre IH]; intros event R IP V P;
    cbn [extract_fields app].
  - rewrite V. now rewrite convert_int_fails.
  - destruct (truthy_value fields g) as [t|] eqn:E.
    2:{ exfalso. apply (R g); [now left | assumption]. }
    assert (C : exists v, convert c t = Ok v).
    { unfold convert. destruct c as [c|]; eauto.
      destruct (String.eqb c "int") eqn:I; eauto.
      apply String.eqb_eq in I. subst c.
      destruct (PyStr.to_int t) eqn:Q; eauto.
      exfalso. apply (IP g t); auto. now left. }
    destruct C as [v ->]. simpl. apply IH; auto.
    + intros g' G'. apply R. now right.
    + intros g' t' G'. apply IP. now right.
Qed.

Lemma extract_mssg_value_raises T (md : message_dict) (event : event_dict) e :
  PyDict.mem T _FIELD_DEFS = true ->
  PyDict.mem T md = true ->
  _extract_mssg_value T md event = Raise e -> e = ValueError.
Proof.
  unfold PyDict.mem.
  destruct (PyDict.get T _FIELD_DEFS) as [defs|] eqn:D; [|discriminate].
  destruct (PyDict.get T md) as [fields|] eqn:F; [|discriminate].
  intros _ _. rewrite (extract_mssg_value_eq _ _ _ _ event D F).
  apply extract_fields_raises.
Qed.

Section Failing.
Variables (T : string) (md : message_dict).
Hypothesis Hschema : PyDict.mem T _FIELD_DEFS = true.
Hypothesis Hfails : forall event, _extract_mssg_value T md event = Raise ValueError.

Lemma general_loop_raises (items : message_dict) : forall event,
  (forall T0, In T0 (PyDict.keys items) -> PyDict.mem T0 md = true) ->
  In T (PyDict.keys items) ->
  general_loop items md event = Raise ValueError.
Proof.
  induction items as [|[T0 x] rest IH]; intros event A I; [destruct I|].
  cbn [general_loop].
  destruct (string_dec T0 T) as [->|N].
  - now rewrite Hschema, Hfails.
  - assert (I' : In T (PyDict.keys rest)) by (destruct I; [contradiction|auto]).
    assert (A' : forall T1, In T1 (PyDict.keys rest) -> PyDict.mem T1 md = true)
      by (intros; apply A; now right).
    assert (M0 : PyDict.mem T0 md = true) by (apply A; now left).
    destruct (PyDict.mem T0 _FIELD_DEFS) eqn:S0.
    + destruct (_extract_mssg_value T0 md event) as [e1|e] eqn:X; simpl.
      * now apply IH.
      * now rewrite (extract_mssg_value_raises _ _ _ _ S0 M0 X).
    + unfold PyDict.mem in M0.
      destruct (PyDict.get T0 md); [|discriminate]. simpl. now apply IH.
Qed.

(** In the loop of a process creation the failing type must come before
    the command line is built, which is the case for SYSCALL and
    EXECVE. *)
Lemma proc_create_loop_raises (before after : list string) : forall event,
  ~ In "EXECVE" before ->
  PyDict.mem T md = true ->
  proc_create_loop (before ++ T :: after)%list md event = Raise ValueError.
Proof.
  induction before as [|T0 before IH]; intros event NE M; cbn [proc_create_loop app].
  - rewrite M, Hschema. simpl. now rewrite Hfails.
  - destruct (negb (PyDict.mem T0 md) || negb (PyDict.mem T0 _FIELD_DEFS)) eqn:Skip.
    + apply IH; auto. intros I. apply NE. now right.
    + apply orb_false_iff in Skip as [M0 S0].
      apply negb_false_iff in M0, S0.
      destruct (_extract_mssg_value T0 md event) as [e1|e] eqn:X; simpl.
      * assert (E : String.eqb T0 "EXECVE" = false).
        { apply String.eqb_neq. intros ->. apply NE. now left. }
        rewrite E. simpl. apply IH; auto. intros I. apply NE. now right.
      * now rewrite (extract_mssg_value_raises _ _ _ _ S0 M0 X).
Qed.
End Failing.

(** C5, as the code has it.  When the loop reaches a field of schema type
    [int] whose text [int] does not read, [_extract_mssg_value] raises
    [ValueError], and so does [_extract_event] for the record, on the
    general path and, for the types of a process creation, on the path of
    the process creation: the record gets no event. *)
Theorem int_failure_raises :
  forall T defs pre f post (md : message_dict) (fields : raw_fields) s,
    PyDict.get T _FIELD_DEFS = Some defs ->
    defs = (pre ++ (f, Some "int") :: post)%list ->
    PyDict.get T md = Some fields ->
    reached fields pre ->
    ints_parse fields pre ->
    truthy_value fields f = Some s ->
    PyStr.to_int s = None ->
    (PyDict.mem "SYSCALL" md && PyDict.mem "EXECVE" md = true ->
     In T ["SYSCALL"; "CWD"; "EXECVE"; "PROCTITLE"]) ->
    (forall event : event_dict, _extract_mssg_value T md event = Raise ValueError)
    /\ _extract_event md = Raise ValueError.
Proof.
  intros T defs pre f post md fields s D E F R IP V P Four.
  assert (Fails : forall event : event_dict,
             _extract_mssg_value T md event = Raise ValueError).
  { intros event. rewrite (extract_mssg_value_eq _ _ _ _ event D F). subst defs.
    exact (extract_fields_int_fails T fields f post s pre event R IP V P). }
  assert (MS : PyDict.mem T _FIELD_DEFS = true)
    by (unfold PyDict.mem; now rewrite D).
  assert (MM : PyDict.mem T md = true)
    by (unfold PyDict.mem; now rewrite F).
  split; [assumption|].
  unfold _extract_event.
  destruct (PyDict.mem "SYSCALL" md && PyDict.mem "EXECVE" md) eqn:Cmp.
  - assert (I : In (f, Some "int") defs).
    { subst defs. apply in_or_app. right. now left. }
    destruct (Four eq_refl) as [<-|[<-|[<-|[<-|[]]]]].
    + rewrite (proc_create_loop_raises "SYSCALL" md MS Fails []
                 ["CWD"; "EXECVE"; "PROCTITLE"]); auto.
    + exfalso. injection D as <-. simpl in I.
      destruct I as [I|[]]. discriminate.
    + rewrite (proc_create_loop_raises "EXECVE" md MS Fails ["SYSCALL"; "CWD"]
                 ["PROCTITLE"]); auto.
      simpl. intros [X|[X|[]]]; discriminate.
    + exfalso. injection D as <-. simpl in I.
      destruct I as [I|[]]. discriminate.
  - rewrite (general_loop_raises T md MS Fails md); auto.
    + intros T0 I. now apply mem_In_keys.
    + now apply (get_In_keys _ _ fields).
Qed.

Lemma int_failure_raises_witness :
  (forall event : event_dict,
      _extract_mssg_value "LOGIN"
        [("LOGIN", [("pid", Some "12"); ("uid", Some "root"); ("tty", Some "pts0")])]
        event = Raise ValueError)
  /\ _extract_event
       [("LOGIN", [("pid", Some "12"); ("uid", Some "root"); ("tty", Some "pts0")])]
     = Raise ValueError.
Proof.
  refine (int_failure_raises "LOGIN" _ [("pid", Some "int")] "uid" _
            [("LOGIN", [("pid", Some "12"); ("uid", Some "root"); ("tty", Some "pts0")])]
            _ "root" eq_refl eq_refl eq_refl _ _ eq_refl eq_refl _).
  - intros g [<-|[]]. discriminate.
  - intros g s [[= <-]|[]] [= <-]. discriminate.
  - discriminate.
Defined.

(** C5 as the specification states it fails: with [uid=root] in a LOGIN
    message the record has no event, although [pid] and [tty] are well
    formed. *)
Lemma int_failure_aborts_record :
  ~ exists r,
      _extract_event
        [("LOGIN", [("pid", Some "12"); ("uid", Some "root"); ("tty", Some "pts0")])]
      = Ok r.
Proof. intros [r H]. vm_compute in H. discriminate. Qed.

(** ** The command line of a process creation *)

Lemma written_names_spec T defs k :
  (exists g, In g (PyDict.keys defs) /\ (k = g \/ k = suffixed T g)) ->
  In k (written_names T defs).
Proof.
  intros (g & G & E). unfold written_names. apply in_flat_map.
  exists g. split; auto. simpl. destruct E; subst; auto.
Qed.

Lemma extract_fields_not_written T (fields : raw_fields) defs
  (event event' : event_dict) k :
  extract_fields T fields defs event = Ok event' ->
  ~ In k (written_names T defs) ->
  PyDict.get k event' = PyDict.get k event.
Proof.
  intros H N. apply (extract_fields_other _ _ _ _ _ _ H).
  intros g G. split; intros ->; apply N; apply written_names_spec;
    exists g; auto.
Qed.

Lemma high_arg_of_nat i : (3 <= i)%nat -> high_arg ("a" ++ PyStr.of_nat i) = true.
Proof.
  intros H. unfold PyStr.of_nat. cbn [append high_arg].
  rewrite NilEmpty.usu, DecimalNat.Unsigned.of_to.
  apply Nat.leb_le in H. now rewrite H.
Qed.

Lemma high_arg_not_in i (l : list string) :
  (3 <= i)%nat ->
  forallb (fun k => negb (high_arg k)) l = true ->
  ~ In ("a" ++ PyStr.of_nat i) l.
Proof.
  intros H A I. rewrite forallb_forall in A. specialize (A _ I).
  now rewrite high_arg_of_nat in A.
Qed.

Lemma strs_of_vals_map (l : list string) : strs_of_vals (map VStr l) = Ok l.
Proof. induction l as [|x r IH]; simpl; [reflexivity | now rewrite IH]. Qed.

Lemma proc_create_loop_app (l1 l2 : list string) (md : message_dict) :
  forall event : event_dict,
    proc_create_loop (l1 ++ l2)%list md event
    = (e <-? proc_create_loop l1 md event ;; proc_create_loop l2 md e).
Proof.
  induction l1 as [|T l1 IH]; intros event; cbn [proc_create_loop app rbind]; auto.
  destruct (negb (PyDict.mem T md) || negb (PyDict.mem T _FIELD_DEFS)); auto.
  destruct (_extract_mssg_value T md event) as [e1|]; cbn [rbind]; auto.
  destruct (if String.eqb T "EXECVE" then add_cmdline e1 else Ok e1);
    cbn [rbind]; auto.
Qed.

(** A type without [int] fields, or whose [int] fields all read, when it
    is not EXECVE: the round returns, and writes the names of the type
    only. *)
Lemma proc_create_round T (md : message_dict) (event : event_dict) :
  String.eqb T "EXECVE" = false ->
  (forall defs fields,
      PyDict.get T _FIELD_DEFS = Some defs -> PyDict.get T md = Some fields ->
      ints_parse fields defs) ->
  exists event',
    proc_create_loop [T] md event = Ok event'
    /\ forall k defs,
        PyDict.get T _FIELD_DEFS = Some defs ->
        ~ In k (written_names T defs) ->
        PyDict.get k event' = PyDict.get k event.
Proof.
  intros NE IP. cbn [proc_create_loop]. unfold PyDict.mem.
  destruct (PyDict.get T md) as [fields|] eqn:F; cbn [negb orb];
    [|exists event; split; auto].
  destruct (PyDict.get T _FIELD_DEFS) as [defs|] eqn:D; cbn [negb orb];
    [|exists event; split; auto].
  rewrite (extract_mssg_value_eq _ _ _ _ event D F).
  destruct (extract_fields_returns T fields defs event (IP _ _ eq_refl eq_refl))
    as [e1 H].
  rewrite H, NE. cbn [rbind]. exists e1. split; auto.
  intros k defs' [= <-] N. now apply (extract_fields_not_written _ _ _ _ _ _ H).
Qed.

Lemma no_int_fields (fields : raw_fields) (defs : field_defs) :
  forallb (fun gc => match snd gc with Some _ => false | None => true end) defs = true ->
  ints_parse fields defs.
Proof.
  intros A g s I _. rewrite forallb_forall in A. specialize (A _ I).
  discriminate.
Qed.

Lemma not_in_by_eqb (k : string) (l : list string) :
  existsb (String.eqb k) l = false -> ~ In k l.
Proof.
  intros E I. assert (X : existsb (String.eqb k) l = true).
  { apply existsb_exists. exists k. split; auto. apply String.eqb_refl. }
  congruence.
Qed.

Lemma get_none_mem {V} (k : string) (d : PyDict.t V) :
  PyDict.get k d = None <-> PyDict.mem k d = false.
Proof. unfold PyDict.mem. destruct (PyDict.get k d); split; congruence. Qed.

Section ExecveRound.
Variables (md : message_dict) (exe : raw_fields) (s : string) (n : Z).
Variable event : event_dict.
Let argc : Z := if n =? 4294967295 then -1 else n.

Hypothesis Hexe : PyDict.get "EXECVE" md = Some exe.
Hypothesis Hargc : truthy_value exe "argc" = Some s.
Hypothesis Hint : PyStr.to_int s = Some n.
Hypothesis Hargs : forall i, (i < 3)%nat -> Z.of_nat i < argc ->
                             truthy_value exe ("a" ++ PyStr.of_nat i) <> None.
Hypothesis Hfree : forall k, In k ["argc"; "a0"; "a1"; "a2"] ->
                             PyDict.get k event = None.
Hypothesis Hhigh : forall i, (3 <= i)%nat ->
                             PyDict.get ("a" ++ PyStr.of_nat i) event = None.

Variable event3 : event_dict.
Hypothesis Hloop : extract_fields "EXECVE" exe execve_defs event = Ok event3.

Lemma execve_wf :
  NoDup (PyDict.keys execve_defs)
  /\ forall f g, In f (PyDict.keys execve_defs) -> In g (PyDict.keys execve_defs) ->
                 f <> suffixed "EXECVE" g.
Proof. apply (field_defs_wf "EXECVE"). reflexivity. Qed.

Lemma execve_argc : PyDict.get "argc" event3 = Some (VInt argc).
Proof.
  destruct execve_wf as [ND SX].
  assert (C : convert (Some "int") s = Ok (VInt argc)).
  { unfold convert. simpl. now rewrite Hint. }
  pose proof (extract_fields_produces "EXECVE" exe "argc" (Some "int")
                [("a0", None); ("a1", None); ("a2", None)] s (VInt argc)
                Hargc C [] event event3 ND SX) as P.
  unfold store_key in P.
  rewrite (proj1 (get_none_mem _ _) (Hfree "argc" (or_introl eq_refl))) in P.
  apply P; auto. intros g [].
Qed.

(** Argument [i] below [argc] and below three is in the event. *)
Lemma execve_low_arg i :
  (i < 3)%nat -> Z.of_nat i < argc ->
  PyDict.get ("a" ++ PyStr.of_nat i) event3 = Some (VStr (execve_arg exe i)).
Proof.
  intros L A. destruct execve_wf as [ND SX].
  assert (R0 : truthy_value exe "a0" <> None)
    by (apply (Hargs 0%nat); lia).
  assert (Rarg : truthy_value exe "argc" <> None) by congruence.
  unfold execve_arg. apply Nat.ltb_lt in L as Lb. rewrite Lb.
  destruct (truthy_value exe ("a" ++ PyStr.of_nat i)) as [v|] eqn:V;
    [|exfalso; now apply (Hargs i)].
  destruct i as [|[|[|i]]]; [| | |lia].
  - pose proof (extract_fields_produces "EXECVE" exe "a0" None
                  [("a1", None); ("a2", None)] v (VStr v) V eq_refl
                  [("argc", Some "int")] event event3 ND SX) as P.
    unfold store_key in P.
    rewrite (proj1 (get_none_mem _ _)
               (Hfree "a0" (or_intror (or_introl eq_refl)))) in P.
    apply P; auto. intros g [<-|[]]. assumption.
  - assert (R1 : truthy_value exe "a0" <> None) by assumption.
    pose proof (extract_fields_produces "EXECVE" exe "a1" None
                  [("a2", None)] v (VStr v) V eq_refl
                  [("argc", Some "int"); ("a0", None)] event event3 ND SX) as P.
    unfold store_key in P.
    rewrite (proj1 (get_none_mem _ _)
               (Hfree "a1" (or_intror (or_intror (or_introl eq_refl))))) in P.
    apply P; auto. intros g [<-|[<-|[]]]; assumption.
  - assert (R1 : truthy_value exe "a1" <> None)
      by (apply (Hargs 1%nat); lia).
    pose proof (extract_fields_produces "EXECVE" exe "a2" None
                  [] v (VStr v) V eq_refl
                  [("argc", Some "int"); ("a0", None); ("a1", None)]
                  event event3 ND SX) as P.
    unfold store_key in P.
    rewrite (proj1 (get_none_mem _ _)
               (Hfree "a2" (or_intror (or_intror (or_intror (or_introl eq_refl)))))) in P.
    apply P; auto. intros g [<-|[<-|[<-|[]]]]; assumption.
Qed.

(** No argument from the fourth on is in the event. *)
Lemma execve_high_arg i :
  (3 <= i)%nat -> PyDict.get ("a" ++ PyStr.of_nat i) event3 = None.
Proof.
  intros H.
  rewrite (extract_fields_not_written _ _ _ _ _ _ Hloop); auto.
  apply high_arg_not_in; auto.
Qed.

Lemma execve_cmdline :
  exists event4,
    add_cmdline event3 = Ok event4
    /\ PyDict.get "cmdline" event4
       = Some (VStr (PyStr.join " " (map (execve_arg exe) (seq 0 (Z.to_nat argc))))).
Proof.
  unfold add_cmdline. unfold get_default at 1. rewrite execve_argc.
  cbn [int_of_val rbind].
  assert (E : map (fun arg_idx =>
                     get_default ("a" ++ PyStr.of_nat arg_idx) (VStr "") event3)
                  (seq 0 (Z.to_nat argc))
              = map VStr (map (execve_arg exe) (seq 0 (Z.to_nat argc)))).
  { rewrite map_map. apply map_ext_in. intros i I. apply in_seq in I.
    unfold get_default. destruct (Nat.lt_ge_cases i 3) as [L|G].
    - rewrite execve_low_arg; auto. lia.
    - rewrite execve_high_arg; auto. unfold execve_arg.
      apply Nat.ltb_ge in G. now rewrite G. }
  rewrite E, strs_of_vals_map. cbn [rbind].
  eexists. split; [reflexivity|]. apply get_set_same.
Qed.
End ExecveRound.

(** What the code builds.  A record with a SYSCALL and an EXECVE message
    whose [int] fields read, whose [argc] has a value, and whose arguments
    below [argc] among [a0], [a1], [a2] have values: the event has type
    SYSCALL_EXECVE, and [cmdline] joins with single spaces, for each index
    below the decoded [argc], the text of [a0], [a1] or [a2] and, from the
    fourth argument on, the empty string: the loop of lines 187-188 asks
    the event for every [a{i}] below [argc], and the schema of EXECVE
    (line 78) has put only [a0], [a1] and [a2] there. *)
Theorem process_creation_cmdline :
  forall (md : message_dict) (sys exe : raw_fields) s n,
    PyDict.get "SYSCALL" md = Some sys ->
    PyDict.get "EXECVE" md = Some exe ->
    (forall defs, PyDict.get "SYSCALL" _FIELD_DEFS = Some defs -> ints_parse sys defs) ->
    truthy_value exe "argc" = Some s ->
    PyStr.to_int s = Some n ->
    (forall i, (i < 3)%nat ->
               Z.of_nat i < (if n =? 4294967295 then -1 else n) ->
               truthy_value exe ("a" ++ PyStr.of_nat i) <> None) ->
    exists event,
      _extract_event md = Ok ("SYSCALL_EXECVE", event)
      /\ PyDict.get "cmdline" event
         = Some (VStr (PyStr.join " "
                         (map (execve_arg exe)
                              (seq 0 (Z.to_nat (if n =? 4294967295 then -1 else n)))))).
Proof.
  intros md sys exe s n S E IS A P Args.
  unfold _extract_event, PyDict.mem. rewrite S, E. cbn [andb].
  change ["SYSCALL"; "CWD"; "EXECVE"; "PROCTITLE"]
    with (["SYSCALL"] ++ ["CWD"] ++ ["EXECVE"] ++ ["PROCTITLE"])%list.
  rewrite proc_create_loop_app.
  (* SYSCALL *)
  destruct (proc_create_round "SYSCALL" md [] eq_refl) as (e1 & -> & F1).
  { intros defs fields D F. rewrite S in F. injection F as <-. auto. }
  cbn [rbind]. rewrite proc_create_loop_app.
  (* CWD *)
  destruct (proc_create_round "CWD" md e1 eq_refl) as (e2 & -> & F2).
  { intros defs fields [= <-] _. now apply no_int_fields. }
  cbn [rbind]. rewrite proc_create_loop_app.
  assert (Free : forall k,
             ~ In k (written_names "SYSCALL"
                       [ ("success", None); ("ppid", Some "int"); ("pid", Some "int");
                         ("auid", Some "int"); ("uid", Some "int"); ("gid", Some "int");
                         ("euid", Some "int"); ("egid", Some "int"); ("ses", Some "int");
                         ("exe", None); ("com", None) ]) ->
             ~ In k (written_names "CWD" [("cwd", None)]) ->
             PyDict.get k e2 = None).
  { intros k N1 N2. rewrite (F2 k _ eq_refl N2). now rewrite (F1 k _ eq_refl N1). }
  (* EXECVE *)
  assert (Low : forall k, In k ["argc"; "a0"; "a1"; "a2"] -> PyDict.get k e2 = None).
  { intros k I. apply Free; apply not_in_by_eqb;
      destruct I as [<-|[<-|[<-|[<-|[]]]]]; reflexivity. }
  assert (High : forall i, (3 <= i)%nat ->
                           PyDict.get ("a" ++ PyStr.of_nat i) e2 = None).
  { intros i G. apply Free; apply high_arg_not_in; auto. }
  assert (IE : ints_parse exe execve_defs).
  { intros g t [[= <-]|[I|[I|[I|[]]]]] V; try discriminate.
    rewrite A in V. injection V as <-. congruence. }
  destruct (extract_fields_returns "EXECVE" exe execve_defs e2 IE) as [e3 H3].
  destruct (execve_cmdline exe s n e2 A P Args Low High e3 H3) as (e4 & C4 & G4).
  assert (R3 : proc_create_loop ["EXECVE"] md e2 = Ok e4).
  { cbn [proc_create_loop]. unfold PyDict.mem at 1. rewrite E.
    change (PyDict.mem "EXECVE" _FIELD_DEFS) with true. cbn [negb orb].
    rewrite (extract_mssg_value_eq "EXECVE" md execve_defs exe e2 eq_refl E).
    rewrite H3. cbn [rbind]. rewrite String.eqb_refl, C4. reflexivity. }
  rewrite R3. cbn [rbind].
  (* PROCTITLE *)
  destruct (proc_create_round "PROCTITLE" md e4 eq_refl) as (e5 & -> & F5).
  { intros defs fields [= <-] _. now apply no_int_fields. }
  cbn [rbind]. exists e5. split; [reflexivity|].
  rewrite (F5 "cmdline" _ eq_refl); auto.
  apply not_in_by_eqb. reflexivity.
Qed.

(** The record of the specification: three arguments. *)
Example cmdline_of_three_arguments :
  _extract_event
    [ ("SYSCALL", [("success", Some "yes"); ("ppid", Some "1"); ("pid", Some "100")]);
      ("EXECVE", [("argc", Some "3"); ("a0", Some "/bin/sh"); ("a1", Some "-c");
                  ("a2", Some "ls")]) ]
  = Ok ("SYSCALL_EXECVE",
        [ ("success", VStr "yes"); ("ppid", VInt 1); ("pid", VInt 100);
          ("argc", VInt 3); ("a0", VStr "/bin/sh"); ("a1", VStr "-c");
          ("a2", VStr "ls"); ("cmdline", VStr "/bin/sh -c ls") ]).
Proof. reflexivity. Qed.

Lemma process_creation_cmdline_witness :
  exists event,
    _extract_event tar_record = Ok ("SYSCALL_EXECVE", event)
    /\ PyDict.get "cmdline" event
       = Some (VStr (PyStr.join " "
                       (map (execve_arg tar_execve)
                            (seq 0 (Z.to_nat (if 4 =? 4294967295 then -1 else 4)))))).
Proof.
  refine (process_creation_cmdline tar_record _ tar_execve "4" 4
            eq_refl eq_refl _ eq_refl eq_refl _).
  - intros defs [= <-] g s I V.
    simpl in I.
    repeat (destruct I as [I|I]; [injection I as <-; vm_compute in V; try discriminate|]);
      try contradiction;
      injection V as <-; discriminate.
  - intros i L _. destruct i as [|[|[|i]]]; [discriminate..|lia].
Defined.

(** C2 (the command line loses the fourth argument).  On a process
    creation with [argc=4] and the arguments [tar], [-x], [-f],
    [logs.tar], the command line of the specification is
    ["tar -x -f logs.tar"]; the event has type SYSCALL_EXECVE and the
    command line ["tar -x -f "], with an empty string for [a3]. *)
Lemma cmdline_loses_fourth_argument :
  spec_cmdline tar_execve = Some "tar -x -f logs.tar"
  /\ exists event,
      _extract_event tar_record = Ok ("SYSCALL_EXECVE", event)
      /\ PyDict.get "cmdline" event = Some (VStr "tar -x -f ")
      /\ PyDict.get "cmdline" event
         <> option_map VStr (spec_cmdline tar_execve).
Proof.
  split; [reflexivity|]. eexists. split; [reflexivity|].
  split; [reflexivity|]. vm_compute. discriminate.
Qed.

(** ** The line parser *)

Lemma split_aux_not_nil sep s : forall skip cur, PyStr.split_aux sep skip cur s <> [].
Proof.
  induction s as [|c r IH]; intros skip cur; simpl; [discriminate|].
  destruct skip; [|apply IH].
  destruct (PyStr.drop_prefix sep (String c r)); [discriminate | apply IH].
Qed.



Lemma extract_timestamp_no_match audit_str hd :
  index (PyStr.split ": " (PyStr.rstrip audit_str)) 0 = Ok hd ->
  re_match_msg hd = None ->
  _extract_timestamp audit_str = Ok "".
Proof.
  intros H N. unfold _extract_timestamp. rewrite H. cbn [rbind].
  now rewrite N.
Qed.

(** [_parse_audit_message] returns the empty list when the header has no
    [type=...]. *)
Lemma parse_audit_message_no_match audit_str hd :
  index (PyStr.split ": " (PyStr.rstrip audit_str)) 0 = Ok hd ->
  re_match_type hd = None ->
  _parse_audit_message audit_str = Ok [].
Proof.
  intros H N. unfold _parse_audit_message. rewrite H. cbn [rbind].
  now rewrite N.
Qed.

(** C6 (the parser raises).  The end-of-event line of auditd has a header
    and no body: after [rstrip] there is no [": "] left, the header matches
    [type=...], and [audit_message[1]] raises [IndexError]. *)
Theorem parse_audit_message_raises :
  _parse_audit_message "type=EOE msg=audit(1560515432.106:13588): "
  = Raise IndexError.
Proof. vm_compute. reflexivity. Qed.

(** ** The process tree on three small tables *)

(** C1 (the levels pass the depth).  With depth 1 and the seed process 1,
    the two grandchildren 4 and 5 are in the tree, at the levels 2 and 3:
    [count] grows with every row of a generation. *)
Theorem levels_exceed_depth :
  result_rows (generate_process_tree 2 0%nat 1 (Some 1%nat)) [fan_out; seed_1]
  = Some [ tree_row 10 1 0 "parent" 1;
           tree_row 20 2 1 "child" 1;
           tree_row 30 3 1 "child" 1;
           tree_row 40 4 2 "child" 2;
           tree_row 50 5 3 "child" 3 ].
Proof. vm_compute. reflexivity. Qed.

(** C7 (later generations have no time filter).  The row of time 5 is a
    child of level 2 of the seed of time 10. *)
Theorem child_before_seed :
  result_rows (generate_process_tree 5 0%nat 4 (Some 1%nat)) [reused_pid; seed_1]
  = Some [ tree_row 5 3 2 "child" 2;
           tree_row 10 1 0 "parent" 1;
           tree_row 20 2 1 "child" 1 ].
Proof. vm_compute. reflexivity. Qed.

(** ** The tables of the caller *)

Lemma extends_refl h : extends h h.
Proof. exists []. now rewrite app_nil_r. Qed.

Lemma extends_nth h1 h a :
  extends h1 h -> (a < List.length h1)%nat ->
  nth a h empty_frame = nth a h1 empty_frame.
Proof. intros [extra ->] L. now apply app_nth1. Qed.

Lemma replace_nth_length {A} n (x : A) l :
  List.length (replace_nth n x l) = List.length l.
Proof.
  revert n. induction l as [|y r IH]; intros [|n]; simpl; auto.
Qed.

Lemma replace_nth_app_r {A} (l1 l2 : list A) n x :
  (List.length l1 <= n)%nat ->
  replace_nth n x (l1 ++ l2)%list
  = (l1 ++ replace_nth (n - List.length l1) x l2)%list.
Proof.
  revert n. induction l1 as [|y r IH]; intros n L; simpl in *.
  - now rewrite Nat.sub_0_r.
  - destruct n as [|n]; [lia|]. simpl. f_equal. apply IH. lia.
Qed.

Lemma nth_replace_nth_other {A} (l : list A) n m x d :
  n <> m -> nth m (replace_nth n x l) d = nth m l d.
Proof.
  revert n m. induction l as [|y r IH]; intros [|n] [|m] N; simpl; auto.
  congruence.
Qed.

Lemma nth_replace_nth_same {A} (l : list A) n x d :
  (n < List.length l)%nat -> nth n (replace_nth n x l) d = x.
Proof.
  revert n. induction l as [|y r IH]; intros [|n] L; simpl in *; auto; try lia.
  apply IH. lia.
Qed.

Section Safety.
Variable h1 : heap.

Lemma safe_ret {A} (Q : A -> Prop) a : Q a -> safe h1 Q (ret a).
Proof. intros q h E. simpl. auto. Qed.

Lemma safe_bind {A B} (Q : A -> Prop) (R : B -> Prop) (m : M A) (k : A -> M B) :
  safe h1 Q m -> (forall a, Q a -> safe h1 R (k a)) -> safe h1 R (bind m k).
Proof.
  intros Sm Sk h E. unfold bind. specialize (Sm h E).
  destruct (m h) as [[a|e|] h']; auto.
  destruct Sm as [E' q]. now apply Sk.
Qed.

Lemma safe_weaken {A} (Q R : A -> Prop) (m : M A) :
  safe h1 Q m -> (forall a, Q a -> R a) -> safe h1 R m.
Proof.
  intros Sm W h E. specialize (Sm h E).
  destruct (m h) as [[a|e|] h']; auto. destruct Sm. auto.
Qed.

Lemma safe_lift {A} (r : result A) : safe h1 (fun _ => True) (lift r).
Proof. intros h E. unfold lift. destruct r; auto. Qed.

Lemma safe_read a : safe h1 (fun _ => True) (read a).
Proof. intros h E. simpl. auto. Qed.

Lemma safe_alloc f : safe h1 (fresh h1) (alloc f).
Proof.
  intros h [extra ->]. simpl. split.
  - exists (extra ++ [f])%list. now rewrite app_assoc.
  - unfold fresh. rewrite length_app. lia.
Qed.

Lemma safe_modify a g : fresh h1 a -> safe h1 (fun _ => True) (modify a g).
Proof.
  intros F h [extra ->]. simpl. split; auto.
  rewrite replace_nth_app_r by assumption. eexists. reflexivity.
Qed.

Lemma safe_column a c : safe h1 (fun _ => True) (pd.column a c).
Proof.
  unfold pd.column. eapply safe_bind; [apply safe_read|]. intros f _.
  destruct (has_label c (columns f)); [now apply safe_ret | apply safe_lift].
Qed.

Lemma safe_has_column a c : safe h1 (fun _ => True) (pd.has_column a c).
Proof.
  unfold pd.has_column. eapply safe_bind; [apply safe_read|]. intros f _.
  now apply safe_ret.
Qed.

Lemma safe_loc a mask : safe h1 (fresh h1) (pd.loc a mask).
Proof.
  unfold pd.loc. eapply safe_bind; [apply safe_read|]. intros f _.
  apply safe_alloc.
Qed.

Lemma safe_head a : safe h1 (fresh h1) (pd.head a).
Proof.
  unfold pd.head. eapply safe_bind; [apply safe_read|]. intros f _.
  apply safe_alloc.
Qed.

Lemma safe_append a b : safe h1 (fresh h1) (pd.append a b).
Proof.
  unfold pd.append. eapply safe_bind; [apply safe_read|]. intros fa _.
  eapply safe_bind; [apply safe_read|]. intros fb _. apply safe_alloc.
Qed.

Lemma safe_tag a role level :
  fresh h1 a -> safe h1 (fun _ => True) (pd.tag a role level).
Proof.
  intros F. unfold pd.tag. eapply safe_bind; [now apply safe_modify|].
  intros _ _. now apply safe_modify.
Qed.

Lemma safe_iterrows a : safe h1 (fun _ => True) (pd.iterrows a).
Proof.
  unfold pd.iterrows. eapply safe_bind; [apply safe_read|]. intros f _.
  now apply safe_ret.
Qed.

Lemma safe_for_each {A S} (Inv : S -> Prop) (body : A -> S -> M S) l :
  (forall x s, Inv s -> safe h1 Inv (body x s)) ->
  forall s, Inv s -> safe h1 Inv (for_each l body s).
Proof.
  intros B. induction l as [|x r IH]; intros s I; simpl.
  - now apply safe_ret.
  - eapply safe_bind; [now apply B|]. intros s' I'. now apply IH.
Qed.

(** A loop whose body lowers a measure returns when the fuel is above
    the measure. *)
Lemma safe_while {S} (Inv : S -> Prop) (measure : S -> nat)
  (cond : S -> bool) (body : S -> M S) :
  (forall s, Inv s -> cond s = true ->
             safe h1 (fun s' => Inv s' /\ (measure s' < measure s)%nat) (body s)) ->
  forall fuel s, Inv s -> (measure s < fuel)%nat ->
                 safe h1 Inv (while fuel cond body s).
Proof.
  intros B. induction fuel as [|fuel IH]; intros s I L; [lia|].
  simpl. destruct (cond s) eqn:C; [|now apply safe_ret].
  eapply safe_bind; [now apply B|]. intros s' [I' L']. apply IH; auto. lia.
Qed.

(** A table that is not empty has a first cell in each of its
    columns. *)
Lemma safe_empty_column {A} (Q : A -> Prop) a c (m : M A) (k : list cell -> M A) :
  safe h1 Q m ->
  (forall x l, safe h1 Q (k (x :: l))) ->
  safe h1 Q (e <- pd.empty a ;; if e then m else (v <- pd.column a c ;; k v)).
Proof.
  intros Sm Sk h E.
  unfold bind at 1. unfold pd.empty, pd.column, bind, read, ret.
  destruct (rows (nth a h empty_frame)) as [|r rs] eqn:R; [now apply Sm|].
  destruct (columns (nth a h empty_frame)) as [|c0 cs] eqn:C; [now apply Sm|].
  rewrite ?R, ?C. destruct (has_label c (c0 :: cs)); simpl.
  - now apply Sk.
  - assumption.
Qed.
End Safety.

Ltac safe_prim :=
  first [ apply safe_column | apply safe_has_column | apply safe_lift
        | apply safe_loc | apply safe_head | apply safe_append
        | apply safe_iterrows | apply safe_read | apply safe_alloc
        | (apply safe_tag; assumption) ].

Ltac safe_chain :=
  repeat (eapply safe_bind; [safe_prim | intros ? ?]).

Section TreeSafety.
Variables (h1 : heap) (audit_data : addr) (branch_depth : Z).

Lemma safe_ancestor_step c0 x st :
  fresh h1 (table_of st) -> c0 <= count_of st -> c0 <= branch_depth ->
  safe h1 (fun st' => fresh h1 (table_of st') /\ c0 < count_of st')
       (ancestor_step audit_data branch_depth x st).
Proof.
  destruct st as [[count pdf] tree]. unfold table_of, count_of. simpl.
  intros F C D. eapply safe_bind; [apply safe_lift|]. intros nan _.
  destruct nan.
  - apply safe_ret. simpl. split; auto. lia.
  - safe_chain. apply safe_ret. simpl. split; auto. lia.
Qed.

Lemma safe_descendant_step c0 x st :
  fresh h1 (table_of st) -> c0 <= count_of st ->
  safe h1 (fun st' => fresh h1 (table_of st') /\ c0 < count_of st')
       (descendant_step audit_data x st).
Proof.
  destruct st as [[count cdf] tree]. unfold table_of, count_of. simpl.
  intros F C. safe_chain. apply safe_ret. simpl. split; auto. lia.
Qed.

Lemma rounds_left_lt st st' :
  count_of st <= branch_depth -> count_of st < count_of st' ->
  (rounds_left branch_depth st' < rounds_left branch_depth st)%nat.
Proof. unfold rounds_left. lia. Qed.

(** A round of the first [while] raises [count]. *)
Lemma safe_ancestor_body st :
  fresh h1 (table_of st) -> in_depth branch_depth st = true ->
  safe h1 (fun st' => fresh h1 (table_of st')
                      /\ (rounds_left branch_depth st'
                          < rounds_left branch_depth st)%nat)
       (ancestor_body audit_data branch_depth st).
Proof.
  intros F C. unfold in_depth in C. apply Z.leb_le in C.
  apply safe_weaken
    with (Q := fun st' => fresh h1 (table_of st') /\ count_of st < count_of st').
  2:{ intros st' [F' L]. split; auto. now apply rounds_left_lt. }
  destruct st as [[count pdf] tree]. unfold table_of, count_of in *.
  simpl in *. unfold ancestor_body.
  apply (safe_empty_column h1 _ pdf "ppid" _
           (fun v => for_each v (ancestor_step audit_data branch_depth)
                       (count, pdf, tree))).
  - apply safe_ret. simpl. split; auto. lia.
  - intros x l. cbn [for_each].
    apply safe_bind
      with (Q := fun st' => fresh h1 (table_of st') /\ count < count_of st').
    + apply (safe_ancestor_step count);
        unfold table_of, count_of; simpl; auto; lia.
    + intros st1 I1.
      apply (safe_for_each h1
               (fun st' => fresh h1 (table_of st') /\ count < count_of st'));
        auto.
      intros y s [Fs Cs]. apply safe_ancestor_step; auto; lia.
Qed.

(** A round of the second [while] raises [count]. *)
Lemma safe_descendant_body st :
  fresh h1 (table_of st) -> in_depth branch_depth st = true ->
  safe h1 (fun st' => fresh h1 (table_of st')
                      /\ (rounds_left branch_depth st'
                          < rounds_left branch_depth st)%nat)
       (descendant_body audit_data branch_depth st).
Proof.
  intros F C. unfold in_depth in C. apply Z.leb_le in C.
  apply safe_weaken
    with (Q := fun st' => fresh h1 (table_of st') /\ count_of st < count_of st').
  2:{ intros st' [F' L]. split; auto. now apply rounds_left_lt. }
  destruct st as [[count cdf] tree]. unfold table_of, count_of in *.
  simpl in *. unfold descendant_body.
  apply (safe_empty_column h1 _ cdf "pid" _
           (fun v => for_each v (descendant_step audit_data) (count, cdf, tree))).
  - apply safe_ret. simpl. split; auto. lia.
  - intros x l. cbn [for_each].
    apply safe_bind
      with (Q := fun st' => fresh h1 (table_of st') /\ count < count_of st').
    + apply (safe_descendant_step count);
        unfold table_of, count_of; simpl; auto; lia.
    + intros st1 I1.
      apply (safe_for_each h1
               (fun st' => fresh h1 (table_of st') /\ count < count_of st'));
        auto.
      intros y s [Fs Cs]. apply safe_descendant_step; auto; lia.
Qed.

Variable fuel : nat.
Hypothesis Hfuel : (Z.to_nat branch_depth < fuel)%nat.

Lemma safe_descendants_of proc tree :
  safe h1 (fun _ => True) (descendants_of fuel audit_data branch_depth proc tree).
Proof.
  unfold descendants_of. safe_chain.
  eapply safe_bind.
  - apply (safe_while h1 (fun st => fresh h1 (table_of st))
             (rounds_left branch_depth)).
    + intros s I C. now apply safe_descendant_body.
    + assumption.
    + unfold rounds_left, count_of. simpl. lia.
  - intros st _. now apply safe_ret.
Qed.

Lemma safe_seed_body procs proc_pid tree :
  safe h1 (fun _ => True)
       (seed_body fuel audit_data branch_depth procs proc_pid tree).
Proof.
  unfold seed_body. safe_chain.
  eapply safe_bind.
  - apply (safe_while h1 (fun st => fresh h1 (table_of st))
             (rounds_left branch_depth)).
    + intros s I C. now apply safe_ancestor_body.
    + assumption.
    + unfold rounds_left, count_of. simpl. lia.
  - intros st _. safe_chain.
    apply (safe_for_each h1 (fun _ => True)); auto.
    intros x s _. apply safe_descendants_of.
Qed.

Lemma safe_finish_tree tree procs :
  safe h1 (fun _ => True) (finish_tree tree procs).
Proof.
  unfold finish_tree. safe_chain.
  destruct (negb (has_label "TimeGenerated" _)); [apply safe_lift|].
  safe_chain.
  destruct (negb (forallb _ tree_columns)); [apply safe_lift|].
  safe_chain. eapply safe_weaken; [apply safe_alloc | auto].
Qed.

(** Building the tree writes none of the tables that exist before, and
    returns. *)
Lemma safe_build_tree procs :
  safe h1 (fun _ => True) (build_tree fuel audit_data branch_depth procs).
Proof.
  unfold build_tree. safe_chain.
  eapply safe_bind.
  - apply (safe_for_each h1 (fun _ => True)); auto.
    intros x s _. apply safe_seed_body.
  - intros tree _. apply safe_finish_tree.
Qed.
End TreeSafety.

Lemma generate_process_tree_seeds fuel audit_data branch_depth p h :
  generate_process_tree fuel audit_data branch_depth (Some p) h
  = build_tree fuel audit_data branch_depth p (heap_tagged p h).
Proof.
  unfold generate_process_tree, heap_tagged, bind, ret, pd.has_column, read, bind, ret.
  destruct (negb (has_label "NodeRole" (columns (nth p h empty_frame)))
            && negb (has_label "Level" (columns (nth p h empty_frame))));
    reflexivity.
Qed.

Lemma heap_tagged_length p h : List.length (heap_tagged p h) = List.length h.
Proof.
  unfold heap_tagged.
  destruct (negb _ && negb _); auto. now rewrite !replace_nth_length.
Qed.

Lemma heap_tagged_other p h a :
  a <> p -> nth a (heap_tagged p h) empty_frame = nth a h empty_frame.
Proof.
  intros N. unfold heap_tagged.
  destruct (negb _ && negb _); auto.
  rewrite !nth_replace_nth_other; auto.
Qed.

Lemma heap_tagged_same p h :
  (p < List.length h)%nat ->
  nth p (heap_tagged p h) empty_frame = tag_seeds (nth p h empty_frame).
Proof.
  intros L. unfold heap_tagged, tag_seeds.
  destruct (negb _ && negb _); auto.
  rewrite nth_replace_nth_same by (now rewrite replace_nth_length).
  now rewrite nth_replace_nth_same.
Qed.

Lemma safe_generate_process_tree_no_seeds h fuel audit_data branch_depth :
  (Z.to_nat branch_depth < fuel)%nat ->
  safe h (fun _ => True) (generate_process_tree fuel audit_data branch_depth None).
Proof.
  intros F. unfold generate_process_tree.
  eapply safe_bind with (Q := fresh h).
  { eapply safe_bind; [apply safe_column|]. intros pids _.
    eapply safe_bind; [apply safe_loc|]. intros with_pid _. apply safe_head. }
  intros procs Fp.
  eapply safe_bind; [apply safe_has_column|]. intros has_role _.
  eapply safe_bind; [apply safe_has_column|]. intros has_level _.
  eapply safe_bind.
  - destruct (negb _ && negb _).
    + now apply safe_tag.
    + now apply safe_ret.
  - intros _ _. now apply safe_build_tree.
Qed.

(** The frame of [generate_process_tree]: with fuel above the depth it
    returns or raises, every table of the caller but the table of seeds is
    as before, and the table of seeds is as before or has got its two
    columns. *)
Lemma generate_process_tree_frame fuel audit_data branch_depth processes h :
  (Z.to_nat branch_depth < fuel)%nat ->
  let '(o, h') := generate_process_tree fuel audit_data branch_depth processes h in
  o <> NoFuel
  /\ (forall a, (a < List.length h)%nat -> processes <> Some a ->
                nth a h' empty_frame = nth a h empty_frame)
  /\ (forall p, processes = Some p -> (p < List.length h)%nat ->
                nth p h' empty_frame = tag_seeds (nth p h empty_frame)).
Proof.
  intros F. destruct processes as [p|].
  - rewrite generate_process_tree_seeds.
    pose proof (safe_build_tree (heap_tagged p h) audit_data branch_depth fuel F p
                  (heap_tagged p h) (extends_refl _)) as S.
    destruct (build_tree fuel audit_data branch_depth p (heap_tagged p h))
      as [o h'].
    assert (E : extends (heap_tagged p h) h' /\ o <> NoFuel).
    { destruct o; [destruct S| |contradiction]; split; auto; discriminate. }
    destruct E as [E N]. split; [assumption|]. split.
    + intros a L NP. rewrite (extends_nth _ _ _ E)
        by (now rewrite heap_tagged_length).
      apply heap_tagged_other. intros ->. now apply NP.
    + intros q [= <-] L. rewrite (extends_nth _ _ _ E)
        by (now rewrite heap_tagged_length).
      now apply heap_tagged_same.
  - pose proof (safe_generate_process_tree_no_seeds h fuel audit_data branch_depth
                  F h (extends_refl _)) as S.
    destruct (generate_process_tree fuel audit_data branch_depth None h)
      as [o h'].
    assert (E : extends h h' /\ o <> NoFuel).
    { destruct o; [destruct S| |contradiction]; split; auto; discriminate. }
    destruct E as [E N]. split; [assumption|]. split.
    + intros a L _. now apply extends_nth.
    + discriminate.
Qed.

(** [generate_process_tree] comes to an end for every table, depth and
    seeds, cycles or not, when the fuel is above the depth. *)
Lemma generate_process_tree_terminates fuel audit_data branch_depth processes h :
  (Z.to_nat branch_depth < fuel)%nat ->
  fst (generate_process_tree fuel audit_data branch_depth processes h) <> NoFuel.
Proof.
  intros F.
  pose proof (generate_process_tree_frame fuel audit_data branch_depth processes h F) as G.
  destruct (generate_process_tree fuel audit_data branch_depth processes h).
  simpl. tauto.
Qed.





Section ExtractFrame.
Variable hex_decode : string -> option string.
Variable expand_event_data : event_table -> result indexed.
Variable merge_on_index : indexed -> indexed -> result indexed.
Variable utcfromtimestamp : string -> result cell.
Variable assign_apply_of_no_row : string -> frame -> result frame.


(** What lines 293-299 raise, the function raises, with the tables as
    these lines left them. *)
Lemma extract_events_to_df_raises_early data input_column event_type h e h1 :
  extract_events_to_df_inplace data input_column h = (Throw e, h1) ->
  extract_events_to_df hex_decode expand_event_data merge_on_index
    utcfromtimestamp assign_apply_of_no_row data input_column event_type h
  = (Throw e, h1).
Proof. intros E. unfold extract_events_to_df. unfold bind at 1. now rewrite E. Qed.
End ExtractFrame.

(** There are libraries that give these tables. *)
Lemma libraries_on_timed_lines_exist :
  exists expand_event_data merge_on_index utcfromtimestamp,
    libraries_on_timed_lines expand_event_data merge_on_index utcfromtimestamp.
Proof.
  exists (fun _ => Ok cwd_fields).
  exists (fun left _ =>
            if list_eqb String.eqb (columns (snd left)) ["cwd"]
            then Ok cwd_typed else Ok cwd_merged).
  exists (fun _ => Ok (Num 1560515432)).
  repeat split; eauto.
Qed.





(* ================================================================== *)
(** * More properties *)

(** ** Unpacking *)

Lemma split_once_join c k v :
  free_of c k = true ->
  split_once c (k ++ String c v) = (k, Some v).
Proof.
  unfold free_of. induction k as [|a k IH]; simpl; intros F.
  - now rewrite Ascii.eqb_refl.
  - apply andb_true_iff in F as [Fa Fk]. apply negb_true_iff in Fa.
    rewrite Fa. now rewrite (IH Fk).
Qed.

Lemma split_once_bare c k :
  free_of c k = true -> split_once c k = (k, None).
Proof.
  unfold free_of. induction k as [|a k IH]; simpl; intros F; auto.
  apply andb_true_iff in F as [Fa Fk]. apply negb_true_iff in Fa.
  rewrite Fa. now rewrite (IH Fk).
Qed.

(** The key that [split_once] gives has no [c]. *)
Lemma split_once_key_free c s : free_of c (fst (split_once c s)) = true.
Proof.
  unfold free_of. induction s as [|a r IH]; simpl; auto.
  destruct (Ascii.eqb a c) eqn:E; simpl; auto.
  destruct (split_once c r) as [k v]. simpl in *. now rewrite E, IH.
Qed.

Section UnpackFacts.
Variable hex_decode : string -> option string.

Lemma unpack_fields_app T toks item :
  unpack_fields hex_decode T (toks ++ [item])%list
  = PyDict.set (fst (unpack_item hex_decode (PyDict.get T _ENCODED_PARAMS) item))
               (snd (unpack_item hex_decode (PyDict.get T _ENCODED_PARAMS) item))
               (unpack_fields hex_decode T toks).
Proof.
  unfold unpack_fields. rewrite fold_left_app. cbn [fold_left].
  now destruct (unpack_item hex_decode (PyDict.get T _ENCODED_PARAMS) item).
Qed.

Lemma unpack_record_mem (record : PyDict.t (list string)) : forall (ev : message_dict) T,
  PyDict.mem T (unpack_record hex_decode ev record)
  = PyDict.mem T ev || PyDict.mem T record.
Proof.
  unfold unpack_record.
  induction record as [|[k toks] r IH]; intros ev T; simpl.
  - now rewrite orb_false_r.
  - rewrite IH.
    assert (C : PyDict.mem T ((k, toks) :: r) = String.eqb T k || PyDict.mem T r).
    { unfold PyDict.mem. simpl. now destruct (String.eqb T k). }
    rewrite C. destruct (String.eqb T k) eqn:E.
    + apply String.eqb_eq in E. subst k. rewrite mem_set_same.
      simpl. now rewrite orb_true_r.
    + apply String.eqb_neq in E. now rewrite mem_set_other.
Qed.

Lemma unpack_auditd_mem_from (l : audit_msgs) : forall (ev : message_dict) T,
  PyDict.mem T (fold_left (unpack_record hex_decode) l ev)
  = PyDict.mem T ev || existsb (PyDict.mem T) l.
Proof.
  induction l as [|record l IH]; intros ev T; simpl.
  - now rewrite orb_false_r.
  - rewrite IH, unpack_record_mem. now rewrite orb_assoc.
Qed.

(** X1. The result of [unpack_auditd] has an entry for exactly the message
    types of its records, and when the last record is one message of type
    [T], the entry of [T] is this message unpacked: the fields of earlier
    messages of type [T] are not kept. *)
Theorem unpack_auditd_last_message_wins :
  forall (l : audit_msgs) T toks,
    (forall T', PyDict.mem T' (unpack_auditd hex_decode l)
                = existsb (PyDict.mem T') l)
    /\ PyDict.get T (unpack_auditd hex_decode (l ++ [[(T, toks)]])%list)
       = Some (unpack_fields hex_decode T toks).
Proof.
  intros l T toks. split.
  - intros T'. unfold unpack_auditd. now rewrite unpack_auditd_mem_from.
  - unfold unpack_auditd. rewrite fold_left_app. simpl.
    apply get_set_same.
Qed.

(** X2. The last item with key [k] decides the field [k] of a message.  An
    item [k] without [=] gives no value.  An item [k=v] gives [v] without
    the double quotes around it when the type has no encoded fields, or
    [k] is not one of them, or [v] starts with a double quote; otherwise
    it gives the decoded text of [v], and [v] itself when the decoding
    fails. *)
Theorem unpack_fields_last_item :
  forall T toks k,
    free_of "=" k = true ->
    PyDict.get k (unpack_fields hex_decode T (toks ++ [k])%list) = Some None
    /\ forall v,
        PyDict.get k (unpack_fields hex_decode T (toks ++ [(k ++ String "=" v)%string])%list)
        = Some (Some
                  (if not_encoded (PyDict.get T _ENCODED_PARAMS) k
                      || starts_with dquote v
                   then strip_char dquote v
                   else match hex_decode v with
                        | Some text => text
                        | None => v
                        end)).
Proof.
  intros T toks k F. split.
  - rewrite unpack_fields_app. unfold unpack_item.
    rewrite (split_once_bare _ _ F). simpl. apply get_set_same.
  - intros v. rewrite unpack_fields_app. unfold unpack_item.
    rewrite (split_once_join _ _ v F).
    destruct (not_encoded (PyDict.get T _ENCODED_PARAMS) k || starts_with dquote v);
      [simpl; apply get_set_same|].
    destruct (hex_decode v); simpl; apply get_set_same.
Qed.

End UnpackFacts.

Lemma unpack_fields_last_item_witness :
  PyDict.get "exe"
    (unpack_fields (fun _ => None) "SYSCALL" (["pid=1"] ++ ["exe"])%list) = Some None
  /\ forall v,
      PyDict.get "exe"
        (unpack_fields (fun _ => None) "SYSCALL" (["pid=1"] ++ [("exe" ++ String "=" v)%string])%list)
      = Some (Some
                (if not_encoded (PyDict.get "SYSCALL" _ENCODED_PARAMS) "exe"
                    || starts_with dquote v
                 then strip_char dquote v
                 else match (fun _ : string => @None string) v with
                      | Some text => text
                      | None => v
                      end)).
Proof.
  apply (unpack_fields_last_item (fun _ => None) "SYSCALL" ["pid=1"] "exe").
  reflexivity.
Defined.

(** ** One raw line *)

(** [_parse_audit_message] returns no message or one message. *)
Lemma parse_audit_message_shape line msgs :
  _parse_audit_message line = Ok msgs ->
  msgs = [] \/ exists T toks, msgs = [[(T, toks)]].
Proof.
  unfold _parse_audit_message.
  destruct (index _ 0) as [hd|]; cbn [rbind]; [|discriminate].
  destruct (re_match_type hd) as [T|].
  - destruct (index _ 1) as [body|]; cbn [rbind]; [|discriminate].
    intros [= <-]. right. eauto.
  - intros [= <-]. now left.
Qed.

(** X3. The event of a raw line is the event of one message: when the row
    function of [extract_events_to_df] returns on a raw line, the line
    parses to one message, the type of the event is the type of this
    message, and the event is the one that the loop of the general path
    (lines 193-201) gives on this message alone. *)
Theorem event_of_line_single_message :
  forall hex_decode line ty (event : event_dict),
    event_of_line hex_decode line = Ok (ty, event) ->
    exists toks,
      _parse_audit_message line = Ok [[(ty, toks)]]
      /\ general_loop [(ty, unpack_fields hex_decode ty toks)]
                      [(ty, unpack_fields hex_decode ty toks)] []
         = Ok event.
Proof.
  intros d line ty event H. unfold event_of_line in H.
  destruct (_parse_audit_message line) as [msgs|] eqn:P; cbn [rbind] in H;
    [|discriminate].
  destruct (parse_audit_message_shape _ _ P) as [->|(T & toks & ->)].
  - discriminate.
  - unfold event_of_messages in H.
    change (unpack_auditd d [[(T, toks)]]) with [(T, unpack_fields d T toks)] in H.
    unfold _extract_event in H. rewrite single_not_composite in H.
    destruct (general_loop _ _ []) as [e|] eqn:G; cbn [rbind] in H;
      [|discriminate].
    injection H as <- <-. exists toks. auto.
Qed.

Lemma event_of_line_single_message_witness :
  exists toks,
    _parse_audit_message "type=CWD msg=audit(1:2): cwd=/tmp" = Ok [[("CWD", toks)]]
    /\ general_loop [("CWD", unpack_fields (fun _ => None) "CWD" toks)]
                    [("CWD", unpack_fields (fun _ => None) "CWD" toks)] []
       = Ok [("cwd", VStr "/tmp")].
Proof.
  apply (event_of_line_single_message (fun _ => None)
           "type=CWD msg=audit(1:2): cwd=/tmp" "CWD" [("cwd", VStr "/tmp")]).
  reflexivity.
Defined.

(** X4. A line whose header does not start with [type=...] has no event:
    the parser returns no message, nothing is unpacked, and the row
    function raises [IndexError]. *)
Theorem event_of_line_without_type :
  forall hex_decode line hd,
    index (PyStr.split ": " (PyStr.rstrip line)) 0 = Ok hd ->
    re_match_type hd = None ->
    event_of_line hex_decode line = Raise IndexError.
Proof.
  intros d line hd H N. unfold event_of_line.
  now rewrite (parse_audit_message_no_match _ _ H N).
Qed.

Lemma event_of_line_without_type_witness :
  event_of_line (fun _ => None) "audit log rotated" = Raise IndexError.
Proof.
  apply (event_of_line_without_type (fun _ => None) "audit log rotated"
           "audit log rotated"); reflexivity.
Defined.

(** ** More on the assembly *)

Lemma extract_fields_gap T (fields fields' : raw_fields) f c post pre :
  forall event : event_dict,
    truthy_value fields f = None ->
    (forall g, In g (PyDict.keys pre) \/ g = f ->
               truthy_value fields' g = truthy_value fields g) ->
    extract_fields T fields' (pre ++ (f, c) :: post)%list event
    = extract_fields T fields (pre ++ (f, c) :: post)%list event.
Proof.
  induction pre as [|[g cg] pre IH]; intros event N A; cbn [extract_fields app].
  - rewrite (A f) by now right. now rewrite N.
  - rewrite (A g) by (left; now left).
    destruct (truthy_value fields g) as [s|]; auto.
    destruct (convert cg s); cbn [rbind]; auto.
    apply IH; auto. intros g' [G|G]; apply A; auto. left. now right.
Qed.

(** X5. The loop of a schema stops at the first field without a value:
    two messages that agree on the fields of the schema up to and with
    such a field give the same result, whatever they have in the fields
    that the schema lists after it. *)
Theorem fields_after_a_gap_are_ignored :
  forall T defs pre f c post (md md' : message_dict) (fields fields' : raw_fields)
         (event : event_dict),
    PyDict.get T _FIELD_DEFS = Some defs ->
    defs = (pre ++ (f, c) :: post)%list ->
    PyDict.get T md = Some fields ->
    PyDict.get T md' = Some fields' ->
    truthy_value fields f = None ->
    (forall g, In g (PyDict.keys pre) \/ g = f ->
               truthy_value fields' g = truthy_value fields g) ->
    _extract_mssg_value T md' event = _extract_mssg_value T md event.
Proof.
  intros T defs pre f c post md md' fields fields' event D E F F' N A.
  rewrite (extract_mssg_value_eq _ _ _ _ event D F).
  rewrite (extract_mssg_value_eq _ _ _ _ event D F').
  subst defs. now apply extract_fields_gap.
Qed.

Lemma fields_after_a_gap_are_ignored_witness :
  _extract_mssg_value "SYSCALL"
    [("SYSCALL", [("ppid", Some "1"); ("pid", Some "100"); ("exe", Some "/bin/ls")])] []
  = _extract_mssg_value "SYSCALL" [("SYSCALL", [])] [].
Proof.
  refine (fields_after_a_gap_are_ignored "SYSCALL" _ [] "success" None _
            [("SYSCALL", [])]
            [("SYSCALL", [("ppid", Some "1"); ("pid", Some "100"); ("exe", Some "/bin/ls")])]
            [] _ [] eq_refl eq_refl eq_refl eq_refl eq_refl _).
  intros g [G| ->]; [destruct G | reflexivity].
Defined.

(** After the rounds of SYSCALL and CWD the event has none of the names
    of EXECVE and no argument name. *)
Lemma before_execve (md : message_dict) (sys : raw_fields) :
  PyDict.get "SYSCALL" md = Some sys ->
  (forall defs, PyDict.get "SYSCALL" _FIELD_DEFS = Some defs -> ints_parse sys defs) ->
  exists e2 : event_dict,
    proc_create_loop ["SYSCALL"; "CWD"] md [] = Ok e2
    /\ (forall k, In k ["argc"; "a0"; "a1"; "a2"; "cmdline"] -> PyDict.get k e2 = None)
    /\ (forall i, (3 <= i)%nat -> PyDict.get ("a" ++ PyStr.of_nat i) e2 = None).
Proof.
  intros S IS.
  change ["SYSCALL"; "CWD"] with (["SYSCALL"] ++ ["CWD"])%list.
  rewrite proc_create_loop_app.
  destruct (proc_create_round "SYSCALL" md [] eq_refl) as (e1 & -> & F1).
  { intros defs fields D F. rewrite S in F. injection F as <-. auto. }
  cbn [rbind].
  destruct (proc_create_round "CWD" md e1 eq_refl) as (e2 & -> & F2).
  { intros defs fields [= <-] _. now apply no_int_fields. }
  exists e2. split; [reflexivity|].
  assert (Free : forall k,
             ~ In k (written_names "SYSCALL"
                       [ ("success", None); ("ppid", Some "int"); ("pid", Some "int");
                         ("auid", Some "int"); ("uid", Some "int"); ("gid", Some "int");
                         ("euid", Some "int"); ("egid", Some "int"); ("ses", Some "int");
                         ("exe", None); ("com", None) ]) ->
             ~ In k (written_names "CWD" [("cwd", None)]) ->
             PyDict.get k e2 = None).
  { intros k N1 N2. rewrite (F2 k _ eq_refl N2). now rewrite (F1 k _ eq_refl N1). }
  split.
  - intros k I. apply Free; apply not_in_by_eqb;
      destruct I as [<-|[<-|[<-|[<-|[<-|[]]]]]]; reflexivity.
  - intros i G. apply Free; apply high_arg_not_in; auto.
Qed.

(** X6. A process creation whose EXECVE message has no value for [argc]
    gets the empty command line, whatever its arguments are: the loop of
    EXECVE stops at [argc], so that no argument is in the event, and the
    command line is made of one missing argument. *)
Theorem cmdline_without_argc :
  forall (md : message_dict) (sys exe : raw_fields),
    PyDict.get "SYSCALL" md = Some sys ->
    PyDict.get "EXECVE" md = Some exe ->
    (forall defs, PyDict.get "SYSCALL" _FIELD_DEFS = Some defs -> ints_parse sys defs) ->
    truthy_value exe "argc" = None ->
    exists event,
      _extract_event md = Ok ("SYSCALL_EXECVE", event)
      /\ PyDict.get "cmdline" event = Some (VStr "")
      /\ forall k, In k ["argc"; "a0"; "a1"; "a2"] -> PyDict.get k event = None.
Proof.
  intros md sys exe S E IS A.
  unfold _extract_event, PyDict.mem. rewrite S, E. cbn [andb].
  change ["SYSCALL"; "CWD"; "EXECVE"; "PROCTITLE"]
    with (["SYSCALL"; "CWD"] ++ ["EXECVE"] ++ ["PROCTITLE"])%list.
  rewrite proc_create_loop_app.
  destruct (before_execve md sys S IS) as (e2 & -> & Low & High).
  cbn [rbind]. rewrite proc_create_loop_app.
  assert (R3 : proc_create_loop ["EXECVE"] md e2
               = Ok (PyDict.set "cmdline" (VStr "") e2)).
  { cbn [proc_create_loop]. unfold PyDict.mem at 1. rewrite E.
    change (PyDict.mem "EXECVE" _FIELD_DEFS) with true. cbn [negb orb].
    rewrite (extract_mssg_value_eq "EXECVE" md execve_defs exe e2 eq_refl E).
    unfold execve_defs. cbn [extract_fields]. rewrite A. cbn [rbind].
    rewrite String.eqb_refl. unfold add_cmdline, get_default.
    rewrite (Low "argc") by (simpl; auto). cbn [int_of_val rbind].
    change (seq 0 (Z.to_nat 1)) with [0%nat]. cbn [map].
    change ("a" ++ PyStr.of_nat 0) with "a0".
    rewrite (Low "a0") by (simpl; auto). reflexivity. }
  rewrite R3. cbn [rbind].
  destruct (proc_create_round "PROCTITLE" md (PyDict.set "cmdline" (VStr "") e2) eq_refl)
    as (e5 & -> & F5).
  { intros defs fields [= <-] _. now apply no_int_fields. }
  cbn [rbind]. exists e5. split; [reflexivity|]. split.
  - rewrite (F5 "cmdline" _ eq_refl) by (apply not_in_by_eqb; reflexivity).
    apply get_set_same.
  - intros k I.
    rewrite (F5 k _ eq_refl)
      by (apply not_in_by_eqb; destruct I as [<-|[<-|[<-|[<-|[]]]]]; reflexivity).
    rewrite get_set_other
      by (destruct I as [<-|[<-|[<-|[<-|[]]]]]; discriminate).
    apply Low. simpl in I |- *. tauto.
Qed.

Lemma cmdline_without_argc_witness :
  exists event,
    _extract_event
      [ ("SYSCALL", [("success", Some "yes"); ("pid", Some "100")]);
        ("EXECVE", [("a0", Some "ls"); ("a1", Some "-l")]) ]
    = Ok ("SYSCALL_EXECVE", event)
    /\ PyDict.get "cmdline" event = Some (VStr "")
    /\ forall k, In k ["argc"; "a0"; "a1"; "a2"] -> PyDict.get k event = None.
Proof.
  refine (cmdline_without_argc
            [ ("SYSCALL", [("success", Some "yes"); ("pid", Some "100")]);
              ("EXECVE", [("a0", Some "ls"); ("a1", Some "-l")]) ]
            [("success", Some "yes"); ("pid", Some "100")]
            [("a0", Some "ls"); ("a1", Some "-l")] eq_refl eq_refl _ eq_refl).
  intros defs [= <-] g s I V. simpl in I.
  repeat (destruct I as [I|I]; [injection I as <-; vm_compute in V; try discriminate|]);
    try contradiction;
    injection V as <-; discriminate.
Defined.

Lemma extract_mssg_value_same_message T (md md' : message_dict) (event : event_dict) :
  PyDict.get T md' = PyDict.get T md ->
  _extract_mssg_value T md' event = _extract_mssg_value T md event.
Proof. intros G. unfold _extract_mssg_value. now rewrite G. Qed.

Lemma proc_create_loop_same_messages (md md' : message_dict) types :
  forall event : event_dict,
    (forall T, In T types -> PyDict.get T md' = PyDict.get T md) ->
    proc_create_loop types md' event = proc_create_loop types md event.
Proof.
  induction types as [|T types IH]; intros event A; cbn [proc_create_loop]; auto.
  assert (G : PyDict.get T md' = PyDict.get T md) by (apply A; now left).
  assert (A' : forall T', In T' types -> PyDict.get T' md' = PyDict.get T' md)
    by (intros; apply A; now right).
  unfold PyDict.mem at 1 3. rewrite G.
  rewrite (extract_mssg_value_same_message T md md' event G).
  destruct (negb _ || negb _); auto.
  destruct (_extract_mssg_value T md event); cbn [rbind]; auto.
  destruct (if String.eqb T "EXECVE" then _ else _); cbn [rbind]; auto.
Qed.

(** X7. The event of a process creation is made of the SYSCALL, CWD,
    EXECVE and PROCTITLE messages only: two records that have both SYSCALL
    and EXECVE and the same four messages give the same result, whatever
    other messages (PATH, ...) they have. *)
Theorem process_creation_ignores_other_messages :
  forall md md' : message_dict,
    PyDict.mem "SYSCALL" md && PyDict.mem "EXECVE" md = true ->
    (forall T, In T ["SYSCALL"; "CWD"; "EXECVE"; "PROCTITLE"] ->
               PyDict.get T md' = PyDict.get T md) ->
    _extract_event md' = _extract_event md.
Proof.
  intros md md' C A. unfold _extract_event.
  assert (C' : PyDict.mem "SYSCALL" md' && PyDict.mem "EXECVE" md' = true).
  { unfold PyDict.mem in *. rewrite !A by (simpl; auto). assumption. }
  rewrite C, C'. now rewrite (proc_create_loop_same_messages md md').
Qed.

Lemma process_creation_ignores_other_messages_witness :
  _extract_event
    [ ("SYSCALL", [("success", Some "yes")]); ("EXECVE", [("argc", Some "1")]);
      ("PATH", [("name", Some "/bin/ls")]) ]
  = _extract_event
      [ ("SYSCALL", [("success", Some "yes")]); ("EXECVE", [("argc", Some "1")]) ].
Proof.
  apply process_creation_ignores_other_messages; [reflexivity|].
  intros T [<-|[<-|[<-|[<-|[]]]]]; reflexivity.
Defined.

Lemma NoDup_get {V} (d : PyDict.t V) k v :
  NoDup (PyDict.keys d) -> In (k, v) d -> PyDict.get k d = Some v.
Proof.
  induction d as [|[k' v'] r IH]; simpl; intros ND I; [contradiction|].
  inversion ND as [|? ? NI ND']; subst.
  destruct I as [[= -> ->]|I].
  - now rewrite String.eqb_refl.
  - destruct (String.eqb k k') eqn:E; auto.
    apply String.eqb_eq in E. subst k'. exfalso. apply NI.
    change k with (fst (k, v)). now apply in_map.
Qed.

Lemma get_update_inv {V W} (f : W -> V) (other : PyDict.t W) :
  forall (d : PyDict.t V) k v,
    PyDict.get k (PyDict.update f d other) = Some v ->
    PyDict.get k d = Some v \/ exists w, In (k, w) other /\ v = f w.
Proof.
  unfold PyDict.update.
  induction other as [|[k' w'] r IH]; intros d k v H; simpl in *; auto.
  apply IH in H as [H|(w & I & E)].
  - destruct (string_dec k k') as [->|N].
    + rewrite get_set_same in H. injection H as <-. right. eauto.
    + rewrite get_set_other in H by assumption. now left.
  - right. eauto.
Qed.

Lemma general_loop_unknown (md : message_dict) (items : message_dict) :
  forall event : event_dict,
    NoDup (PyDict.keys md) ->
    incl items md ->
    (forall T, In T (PyDict.keys items) -> PyDict.get T _FIELD_DEFS = None) ->
    general_loop items md event = Ok (raw_merge items event).
Proof.
  induction items as [|[T x] items IH]; intros event ND I U; auto.
  cbn [general_loop]. unfold PyDict.mem.
  rewrite (U T) by now left.
  rewrite (NoDup_get md T x ND) by (apply I; now left).
  cbn [rbind]. apply IH; auto.
  - intros y Y. apply I. now right.
  - intros T' T'in. apply U. now right.
Qed.

Lemma raw_merge_mem (items : message_dict) : forall (event : event_dict) k,
  PyDict.mem k (raw_merge items event)
  = PyDict.mem k event || existsb (fun kv => PyDict.mem k (snd kv)) items.
Proof.
  unfold raw_merge.
  induction items as [|[T x] items IH]; intros event k; simpl.
  - now rewrite orb_false_r.
  - rewrite IH, mem_update. now rewrite orb_assoc.
Qed.

Lemma raw_merge_values (items : message_dict) : forall (event : event_dict) k v,
  PyDict.get k (raw_merge items event) = Some v ->
  PyDict.get k event = Some v
  \/ exists T fields w, In (T, fields) items /\ In (k, w) fields /\ v = of_raw w.
Proof.
  unfold raw_merge.
  induction items as [|[T x] items IH]; intros event k v H; simpl in *; auto.
  apply IH in H as [H|(T' & f & w & I & J & E)].
  - apply get_update_inv in H as [H|(w & I & E)]; auto.
    right. exists T, x, w. auto.
  - right. exists T', f, w. auto.
Qed.

(** X8. A record whose message types are all outside the schema always has
    an event: its type is the first message type, its names are exactly
    the keys of the messages, and each value is the value of an item of a
    message as it was unpacked, never an integer. *)
Theorem unknown_types_pass_through :
  forall (md : message_dict) first fields rest,
    md = (first, fields) :: rest ->
    NoDup (PyDict.keys md) ->
    (forall T, In T (PyDict.keys md) -> PyDict.get T _FIELD_DEFS = None) ->
    exists event,
      _extract_event md = Ok (first, event)
      /\ (forall k, PyDict.mem k event
                    = existsb (fun kv => PyDict.mem k (snd kv)) md)
      /\ (forall k v, PyDict.get k event = Some v ->
                      exists T f w, In (T, f) md /\ In (k, w) f /\ v = of_raw w).
Proof.
  intros md first fields rest E ND U.
  exists (raw_merge md []). split; [|split].
  - unfold _extract_event.
    assert (C : PyDict.mem "SYSCALL" md = false).
    { destruct (PyDict.mem "SYSCALL" md) eqn:M; auto.
      apply mem_In_keys in M. apply U in M. discriminate. }
    rewrite C. cbn [andb].
    rewrite (general_loop_unknown md md [] ND (incl_refl _) U). cbn [rbind].
    subst md. reflexivity.
  - intros k. now rewrite raw_merge_mem.
  - intros k v H. apply raw_merge_values in H as [H|H]; [discriminate | assumption].
Qed.

Lemma unknown_types_pass_through_witness :
  exists event,
    _extract_event [ ("USER_START", [("pid", Some "311"); ("res", Some "success")]) ]
    = Ok ("USER_START", event)
    /\ (forall k, PyDict.mem k event
                  = existsb (fun kv => PyDict.mem k (snd kv))
                      [ ("USER_START", [("pid", Some "311"); ("res", Some "success")]) ])
    /\ (forall k v, PyDict.get k event = Some v ->
                    exists T f w,
                      In (T, f) [ ("USER_START", [("pid", Some "311"); ("res", Some "success")]) ]
                      /\ In (k, w) f /\ v = of_raw w).
Proof.
  refine (unknown_types_pass_through _ "USER_START"
            [("pid", Some "311"); ("res", Some "success")] [] eq_refl _ _).
  - repeat constructor. simpl. tauto.
  - intros T [<-|[]]. reflexivity.
Defined.

(** ** More on the line parser *)

Lemma all_chars_app p a b :
  all_chars p (a ++ b) = all_chars p a && all_chars p b.
Proof.
  induction a as [|c a IH]; simpl; auto. now rewrite IH, andb_assoc.
Qed.

(** The pieces of a split at one character have none of it. *)
Lemma split_aux_char_free c s : forall cur,
  free_of c cur = true ->
  Forall (fun piece => free_of c piece = true)
         (PyStr.split_aux (String c EmptyString) 0 cur s).
Proof.
  induction s as [|a r IH]; intros cur F; cbn [PyStr.split_aux].
  - now constructor.
  - cbn [PyStr.drop_prefix]. destruct (Ascii.eqb c a) eqn:E; simpl.
    + constructor; [assumption | now apply IH].
    + apply IH. unfold free_of in *. rewrite all_chars_app, F. simpl.
      rewrite Ascii.eqb_sym, E. reflexivity.
Qed.

Lemma split_char_free c s :
  Forall (fun piece => free_of c piece = true) (PyStr.split (String c EmptyString) s).
Proof. apply split_aux_char_free. reflexivity. Qed.

Lemma index_In {A} (l : list A) i x : index l i = Ok x -> In x l.
Proof.
  unfold index. destruct (nth_error l i) eqn:E; [|discriminate].
  intros [= <-]. now apply nth_error_In in E.
Qed.

(** X9. The message id that [_extract_timestamp] returns never has a
    colon: of the payload [seconds.millis:serial] of [msg=audit(...)] only
    the time is kept, so that events of the same millisecond have the same
    id. *)
Theorem extract_timestamp_has_no_colon :
  forall line t, _extract_timestamp line = Ok t -> free_of ":" t = true.
Proof.
  intros line t. unfold _extract_timestamp.
  destruct (index _ 0) as [hd|]; cbn [rbind]; [|discriminate].
  destruct (re_match_msg hd) as [payload|].
  - intros H. apply index_In in H.
    pose proof (split_char_free ":" payload) as F.
    rewrite Forall_forall in F. now apply F.
  - now intros [= <-].
Qed.

Lemma extract_timestamp_has_no_colon_witness :
  free_of ":" "1560515432.106" = true.
Proof.
  apply (extract_timestamp_has_no_colon
           "type=CWD msg=audit(1560515432.106:13588): cwd=/tmp").
  reflexivity.
Defined.

Lemma span_fst_all p s : all_chars p (fst (PyStr.span p s)) = true.
Proof.
  induction s as [|c r IH]; simpl; auto.
  destruct (p c) eqn:E; simpl; auto.
  destruct (PyStr.span p r). simpl in *. now rewrite E, IH.
Qed.

(** X10. What [_parse_audit_message] returns on any line is no message or
    one message; the type of the message is not empty and has no white
    space, and the message has at least one token and no token with a
    space. *)
Theorem parse_audit_message_result :
  forall line msgs,
    _parse_audit_message line = Ok msgs ->
    msgs = []
    \/ exists T toks,
        msgs = [[(T, toks)]]
        /\ T <> ""
        /\ all_chars (fun c => negb (PyStr.is_space c)) T = true
        /\ toks <> []
        /\ Forall (fun tok => free_of " " tok = true) toks.
Proof.
  intros line msgs. unfold _parse_audit_message.
  destruct (index _ 0) as [hd|]; cbn [rbind]; [|discriminate].
  unfold re_match_type.
  destruct (PyStr.drop_prefix "type=" hd) as [r|]; [|intros [= <-]; now left].
  pose proof (span_fst_all (fun c => negb (PyStr.is_space c)) r) as A.
  destruct (PyStr.span _ r) as [g rest]. simpl in A.
  destruct g as [|c g]; simpl; [intros [= <-]; now left|].
  destruct (index _ 1) as [body|]; cbn [rbind]; [|discriminate].
  intros [= <-]. right. exists (String c g), (PyStr.split " " body).
  repeat split; auto.
  - discriminate.
  - apply split_aux_not_nil.
  - apply split_char_free.
Qed.

Lemma parse_audit_message_result_witness :
  [[("CWD", ["cwd=/tmp"])]] = ([] : audit_msgs)
  \/ exists T toks,
      [[("CWD", ["cwd=/tmp"])]] = [[(T, toks)]]
      /\ T <> ""
      /\ all_chars (fun c => negb (PyStr.is_space c)) T = true
      /\ toks <> []
      /\ Forall (fun tok => free_of " " tok = true) toks.
Proof.
  apply (parse_audit_message_result "type=CWD msg=audit(1:2): cwd=/tmp").
  reflexivity.
Defined.

Lemma append_assoc (a b c : string) : (a ++ b) ++ c = a ++ b ++ c.
Proof. induction a as [|x a IH]; simpl; [reflexivity | now rewrite IH]. Qed.

Lemma append_nil_r (a : string) : a ++ "" = a.
Proof. induction a as [|x a IH]; simpl; [reflexivity | now rewrite IH]. Qed.

Lemma split_colon_space_none b : forall cur,
  has_colon_space b = false ->
  PyStr.split_aux ": " 0 cur b = [cur ++ b].
Proof.
  induction b as [|c r IH]; intros cur H.
  - simpl. now rewrite append_nil_r.
  - cbn [PyStr.split_aux]. cbn [has_colon_space] in H.
    destruct (PyStr.drop_prefix ": " (String c r)); [discriminate|].
    rewrite IH by assumption. now rewrite append_assoc.
Qed.

Lemma split_colon_space_first h b : forall cur,
  has_colon_space h = false ->
  PyStr.split_aux ": " 0 cur (h ++ ": " ++ b)
  = (cur ++ h) :: PyStr.split_aux ": " 0 "" b.
Proof.
  induction h as [|c r IH]; intros cur H.
  - simpl. now rewrite append_nil_r.
  - cbn [has_colon_space] in H.
    destruct (PyStr.drop_prefix ": " (String c r)) eqn:D; [discriminate|].
    change (String c r ++ ": " ++ b) with (String c (r ++ ": " ++ b)).
    cbn [PyStr.split_aux].
    assert (D' : PyStr.drop_prefix ": " (String c (r ++ ": " ++ b)) = None).
    { cbn [PyStr.drop_prefix] in D |- *.
      destruct (Ascii.eqb ":" c); [|reflexivity].
      destruct r as [|d r]; [reflexivity|].
      change (String d r ++ ": " ++ b) with (String d (r ++ ": " ++ b)).
      cbn [PyStr.drop_prefix] in D |- *.
      destruct (Ascii.eqb " " d); [discriminate | reflexivity]. }
    rewrite D', IH by assumption. now rewrite append_assoc.
Qed.

Lemma rstrip_app a b :
  PyStr.rstrip b <> "" -> PyStr.rstrip (a ++ b) = a ++ PyStr.rstrip b.
Proof.
  intros N. induction a as [|c a IH]; simpl; auto.
  rewrite IH. destruct (a ++ PyStr.rstrip b) eqn:E; auto.
  destruct a; simpl in E; [contradiction | discriminate].
Qed.

Lemma span_app p a c r :
  all_chars p a = true -> p c = false ->
  PyStr.span p (a ++ String c r) = (a, String c r).
Proof.
  intros A C. induction a as [|x a IH]; simpl in *.
  - now rewrite C.
  - apply andb_true_iff in A as [X A]. now rewrite X, (IH A).
Qed.

Lemma re_match_msg_no_m s :
  free_of "m" s = true -> re_match_msg s = None.
Proof.
  unfold free_of. induction s as [|c r IH]; cbn [all_chars re_match_msg]; auto.
  intros F. apply andb_true_iff in F as [C F]. apply negb_true_iff in C.
  rewrite (IH F). rewrite Ascii.eqb_sym in C.
  assert (H : re_msg_here (String c r) = None).
  { unfold re_msg_here. cbn [PyStr.drop_prefix]. now rewrite C. }
  rewrite H. now destruct (Ascii.eqb c PyStr.nl).
Qed.

Lemma re_match_msg_prefix pre s g :
  free_of PyStr.nl pre = true ->
  re_match_msg s = Some g -> re_match_msg (pre ++ s) = Some g.
Proof.
  unfold free_of. intros F H.
  induction pre as [|c pre IH]; cbn [all_chars] in F; auto.
  change (String c pre ++ s) with (String c (pre ++ s)). cbn [re_match_msg].
  apply andb_true_iff in F as [C F]. apply negb_true_iff in C.
  now rewrite C, (IH F).
Qed.

Lemma re_match_msg_payload payload :
  payload <> "" -> all_chars payload_char payload = true ->
  re_match_msg ("msg=audit(" ++ payload ++ ")") = Some payload.
Proof.
  intros N A.
  assert (Ap : all_chars (fun c => negb (Ascii.eqb c ")")) payload = true
               /\ free_of "m" payload = true).
  { unfold free_of. clear N. induction payload as [|c r IH]; simpl in *; auto.
    unfold payload_char in A at 1.
    apply andb_true_iff in A as [C A]. apply andb_true_iff in C as [C1 C2].
    destruct (IH A) as [I1 I2]. now rewrite C1, C2, I1, I2. }
  destruct Ap as [A1 A2].
  change ("msg=audit(" ++ payload ++ ")")
    with (String "m" ("sg=audit(" ++ payload ++ ")")).
  cbn [re_match_msg].
  assert (T : re_match_msg ("sg=audit(" ++ payload ++ ")") = None).
  { apply re_match_msg_no_m. unfold free_of in *.
    rewrite all_chars_app, all_chars_app, A2. reflexivity. }
  change (Ascii.eqb "m" PyStr.nl) with false. cbn iota. rewrite T.
  unfold re_msg_here.
  change (PyStr.drop_prefix "msg=audit(" (String "m" ("sg=audit(" ++ payload ++ ")")))
    with (Some (payload ++ ")")).
  cbn iota. rewrite (span_app _ payload ")" "" A1 eq_refl).
  destruct payload; [contradiction | reflexivity].
Qed.

Lemma split_char_head c s : forall cur,
  exists rest,
    PyStr.split_aux (String c EmptyString) 0 cur s
    = (cur ++ fst (split_once c s)) :: rest.
Proof.
  induction s as [|a r IH]; intros cur; cbn [PyStr.split_aux split_once].
  - exists []. simpl. now rewrite append_nil_r.
  - cbn [PyStr.drop_prefix]. rewrite (Ascii.eqb_sym c a).
    destruct (Ascii.eqb a c) eqn:E; simpl.
    + eexists. now rewrite append_nil_r.
    + destruct (IH (cur ++ String a "")) as [rest ->].
      destruct (split_once c r) as [k v]. simpl. exists rest.
      now rewrite append_assoc.
Qed.

(** X11. A line of the wire format, [type=T msg=audit(P): body], with a
    type without white space, no [": "] in the header or in the body, and
    a body that does not end with white space: [_parse_audit_message]
    returns the message of type [T] with the tokens of the body, and
    [_extract_timestamp] returns the part of [P] before its first
    colon. *)
Theorem wire_format_line :
  forall T payload body,
    T <> "" ->
    all_chars (fun c => negb (PyStr.is_space c)) T = true ->
    payload <> "" ->
    all_chars payload_char payload = true ->
    has_colon_space (audit_header T payload) = false ->
    body <> "" ->
    PyStr.rstrip body = body ->
    has_colon_space body = false ->
    _parse_audit_message (audit_header T payload ++ ": " ++ body)
    = Ok [[(T, PyStr.split " " body)]]
    /\ _extract_timestamp (audit_header T payload ++ ": " ++ body)
       = Ok (fst (split_once ":" payload)).
Proof.
  intros T payload body NT AT NP AP Hh NB RB Hb.
  assert (S : PyStr.split ": " (PyStr.rstrip (audit_header T payload ++ ": " ++ body))
              = [audit_header T payload; body]).
  { rewrite rstrip_app by (rewrite !rstrip_app; rewrite RB; auto;
                           destruct body; [contradiction | discriminate]).
    rewrite rstrip_app by (now rewrite RB). rewrite RB.
    unfold PyStr.split. rewrite split_colon_space_first by assumption.
    now rewrite split_colon_space_none. }
  split.
  - unfold _parse_audit_message. rewrite S. cbn [index nth_error rbind].
    unfold re_match_type, audit_header.
    change (PyStr.drop_prefix "type=" ("type=" ++ T ++ " msg=audit(" ++ payload ++ ")"))
      with (Some (T ++ String " " ("msg=audit(" ++ payload ++ ")"))).
    cbn iota. rewrite (span_app _ T " " _ AT eq_refl).
    destruct T; [contradiction | reflexivity].
  - unfold _extract_timestamp. rewrite S. cbn [index nth_error rbind].
    assert (M : re_match_msg (audit_header T payload) = Some payload).
    { unfold audit_header.
      rewrite <- append_assoc, <- append_assoc.
      change ("msg=audit(" ++ payload ++ ")")
        with ("msg=audit(" ++ payload ++ ")") .
      replace ((("type=" ++ T) ++ " msg=audit(") ++ payload ++ ")")
        with (("type=" ++ T ++ " ") ++ "msg=audit(" ++ payload ++ ")")
        by (now rewrite !append_assoc).
      apply re_match_msg_prefix; [|now apply re_match_msg_payload].
      unfold free_of. change ("type=" ++ T ++ " ") with ("type=" ++ (T ++ " ")).
      rewrite all_chars_app, all_chars_app.
      assert (X : all_chars (fun a => negb (Ascii.eqb a PyStr.nl)) T = true).
      { clear -AT. induction T as [|c T IH]; simpl in *; auto.
        apply andb_true_iff in AT as [C A]. rewrite (IH A), andb_true_r.
        destruct (Ascii.eqb c PyStr.nl) eqn:E; auto.
        apply Ascii.eqb_eq in E. subst c. discriminate. }
      rewrite X. reflexivity. }
    rewrite M. unfold PyStr.split, index.
    destruct (split_char_head ":" payload "") as [rest ->]. reflexivity.
Qed.

Lemma wire_format_line_witness :
  _parse_audit_message
    (audit_header "SYSCALL" "1560515432.106:13588" ++ ": " ++ "arch=c000003e pid=7")
  = Ok [[("SYSCALL", PyStr.split " " "arch=c000003e pid=7")]]
  /\ _extract_timestamp
       (audit_header "SYSCALL" "1560515432.106:13588" ++ ": " ++ "arch=c000003e pid=7")
     = Ok (fst (split_once ":" "1560515432.106:13588")).
Proof.
  apply wire_format_line; try reflexivity; discriminate.
Defined.

(** ** Columns to the front *)


Lemma cell_at_project cols r c :
  In c cols -> cell_at c (project cols r) = cell_at c r.
Proof.
  unfold cell_at, project. induction cols as [|c0 cols IH]; simpl; [tauto|].
  intros I. destruct (String.eqb c c0) eqn:E.
  - apply String.eqb_eq in E. now subst.
  - apply String.eqb_neq in E. apply IH. destruct I; [congruence | assumption].
Qed.

Lemma cell_at_project_out cols r c :
  ~ In c cols -> cell_at c (project cols r) = NaN.
Proof.
  unfold cell_at, project. induction cols as [|c0 cols IH]; simpl; auto.
  intros N. destruct (String.eqb c c0) eqn:E.
  - apply String.eqb_eq in E. subst. tauto.
  - apply IH. tauto.
Qed.

Lemma rotation_permutation {A} (k : nat) (l : list A) :
  Permutation (skipn k l ++ firstn k l) l.
Proof.
  rewrite <- (firstn_skipn k l) at 3. apply Permutation_app_comm.
Qed.

(** X12. On a table with distinct column labels, [_move_cols_to_front]
    loses and repeats no column, whatever the count is: the columns of
    the result are a permutation of the columns of the data.  For a
    count between 0 and the number of columns the last [count] columns
    come first, in their order, before the others; for a count above the
    number of columns the order does not change.  The cells of every
    column are the same in the same rows. *)
Theorem move_cols_to_front_columns :
  forall (data : frame) (column_count : Z),
    NoDup (columns data) ->
    let n := List.length (columns data) in
    let moved := _move_cols_to_front data column_count in
    Permutation (columns moved) (columns data)
    /\ (0 <= column_count <= Z.of_nat n ->
        columns moved
        = (skipn (n - Z.to_nat column_count) (columns data)
           ++ firstn (n - Z.to_nat column_count) (columns data))%list)
    /\ (Z.of_nat n < column_count -> columns moved = columns data)
    /\ (forall c, In c (columns data) ->
                  map (cell_at c) (rows moved) = map (cell_at c) (rows data)).
Proof.
  intros data cc _ n moved. subst moved.
  unfold _move_cols_to_front, slice_from, slice_to. cbn [columns rows frame_select].
  fold n. set (k := slice_index (- cc) n).
  split; [apply rotation_permutation|]. split; [|split].
  - intros R. subst k. unfold slice_index.
    destruct (- cc <? 0) eqn:E.
    + apply Z.ltb_lt in E.
      replace (Z.to_nat (Z.max 0 (Z.of_nat n + - cc))) with (n - Z.to_nat cc)%nat
        by lia.
      reflexivity.
    + apply Z.ltb_ge in E. assert (cc = 0) by lia. subst cc.
      cbn [Z.opp Z.to_nat Nat.min]. rewrite Nat.sub_0_r. subst n.
      rewrite skipn_all, firstn_all. cbn [skipn firstn]. now rewrite app_nil_r.
  - intros R. replace k with 0%nat.
    + simpl. now rewrite app_nil_r.
    + subst k. unfold slice_index.
      destruct (- cc <? 0) eqn:E; [lia|]. apply Z.ltb_ge in E. lia.
  - intros c I. rewrite map_map. apply map_ext. intros r.
    apply (cell_at_project _ r c).
    apply (Permutation_in c (Permutation_sym (rotation_permutation k (columns data)))).
    assumption.
Qed.

Lemma move_cols_to_front_columns_witness :
  columns (_move_cols_to_front
             {| columns := ["a"; "b"; "c"; "d"]; rows := [] |} 1)
  = (skipn (4 - Z.to_nat 1) ["a"; "b"; "c"; "d"]
     ++ firstn (4 - Z.to_nat 1) ["a"; "b"; "c"; "d"])%list.
Proof.
  refine (proj1 (proj2 (move_cols_to_front_columns
                          {| columns := ["a"; "b"; "c"; "d"]; rows := [] |} 1 _)) _).
  - apply nodupb_NoDup. reflexivity.
  - simpl. lia.
Defined.

(** ** The events of one type *)

Lemma cell_eqb_str c s : cell_eqb c (Str s) = true -> c = Str s.
Proof.
  destruct c; simpl; try discriminate. intros E.
  apply String.eqb_eq in E. now subst.
Qed.

Lemma has_label_In c cols : has_label c cols = true <-> In c cols.
Proof.
  unfold has_label. rewrite existsb_exists. split.
  - intros (x & I & E). apply String.eqb_eq in E. now subst.
  - intros I. exists c. split; auto. apply String.eqb_refl.
Qed.

(** X13. When [get_event_subset] returns, its rows are the rows of the
    data with the event type, in their order and each with the event type
    in its column [EventType]; its columns are the columns of the data
    that have a value in one of these rows, and under these columns the
    rows have the cells they had. *)
Theorem get_event_subset_result :
  forall (data : frame) event_type subset,
    NoDup (columns data) ->
    get_event_subset data event_type = Ok subset ->
    let selected := rows_of_type data event_type in
    rows subset = map (project (columns subset)) selected
    /\ (forall r, In r (rows subset) -> cell_at "EventType" r = Str event_type)
    /\ (forall c, In c (columns subset) <->
                  In c (columns data)
                  /\ exists r, In r selected /\ cell_at c r <> NaN)
    /\ (forall c, In c (columns subset) ->
                  map (cell_at c) (rows subset) = map (cell_at c) selected).
Proof.
  intros data ty subset _ H selected. unfold get_event_subset in H.
  destruct (has_label "EventType" (columns data)) eqn:L; [|discriminate].
  injection H as <-. unfold dropna_columns. cbn [columns rows frame_select].
  fold (rows_of_type data ty). fold selected.
  set (kept := filter _ (columns data)).
  assert (K : forall c, In c kept <->
                        In c (columns data)
                        /\ exists r, In r selected /\ cell_at c r <> NaN).
  { intros c. subst kept. rewrite filter_In, existsb_exists. split.
    - intros [I (r & R & N)]. refine (conj I (ex_intro _ r (conj R _))).
      intros E. destruct (cell_at c r); discriminate.
    - intros [I (r & R & N)]. refine (conj I (ex_intro _ r (conj R _))).
      destruct (cell_at c r); solve [auto | contradiction]. }
  split; [reflexivity|]. split; [|split; [exact K|]].
  - intros r I. apply in_map_iff in I as (r0 & <- & R0).
    assert (E : cell_at "EventType" r0 = Str ty).
    { subst selected. unfold rows_of_type in R0. apply filter_In in R0 as [_ E].
      now apply cell_eqb_str. }
    fold (project kept r0). rewrite cell_at_project; auto.
    apply K. split; [now apply has_label_In|]. exists r0. split; auto.
    rewrite E. discriminate.
  - intros c I. rewrite map_map. apply map_ext. intros r.
    now apply (cell_at_project kept r c).
Qed.

Lemma get_event_subset_result_witness :
  let data := {| columns := ["EventType"; "pid"; "cwd"];
                 rows := [ [("EventType", Str "CWD"); ("cwd", Str "/")];
                           [("EventType", Str "LOGIN"); ("pid", Num 7)] ] |} in
  let subset := {| columns := ["EventType"; "cwd"];
                   rows := [ [("EventType", Str "CWD"); ("cwd", Str "/")] ] |} in
  let selected := rows_of_type data "CWD" in
  rows subset = map (project (columns subset)) selected
  /\ (forall r, In r (rows subset) -> cell_at "EventType" r = Str "CWD")
  /\ (forall c, In c (columns subset) <->
                In c (columns data)
                /\ exists r, In r selected /\ cell_at c r <> NaN)
  /\ (forall c, In c (columns subset) ->
                map (cell_at c) (rows subset) = map (cell_at c) selected).
Proof.
  intros data subset.
  apply (get_event_subset_result data "CWD" subset).
  - apply nodupb_NoDup. reflexivity.
  - reflexivity.
Defined.

(** X14. When no row has the event type, [get_event_subset] returns a
    table without rows and without columns, and the same selection on
    this table raises [KeyError]; without a column [EventType] the
    selection raises [KeyError] at once. *)
Theorem get_event_subset_of_no_event :
  forall (data : frame) event_type,
    NoDup (columns data) ->
    (has_label "EventType" (columns data) = true ->
     rows_of_type data event_type = [] ->
     get_event_subset data event_type = Ok empty_frame
     /\ (forall ty subset,
            get_event_subset data event_type = Ok subset ->
            get_event_subset subset ty = Raise KeyError))
    /\ (has_label "EventType" (columns data) = false ->
        get_event_subset data event_type = Raise KeyError).
Proof.
  intros data ty _. split.
  - intros L E.
    assert (G : get_event_subset data ty = Ok empty_frame).
    { unfold get_event_subset. rewrite L. fold (rows_of_type data ty). rewrite E.
      unfold dropna_columns, frame_select, empty_frame.
      cbn [rows columns map existsb].
      replace (filter (fun _ : string => false) (columns data)) with (@nil string);
        [reflexivity|].
      clear. induction (columns data) as [|c l IH]; simpl; auto. }
    split; auto. intros ty' subset H. rewrite G in H. injection H as <-.
    reflexivity.
  - intros L. unfold get_event_subset. now rewrite L.
Qed.

Lemma get_event_subset_of_no_event_witness :
  get_event_subset
    {| columns := ["EventType"; "pid"];
       rows := [ [("EventType", Str "LOGIN"); ("pid", Num 7)] ] |} "CWD"
  = Ok empty_frame.
Proof.
  refine (proj1 (proj1 (get_event_subset_of_no_event
                          {| columns := ["EventType"; "pid"];
                             rows := [ [("EventType", Str "LOGIN"); ("pid", Num 7)] ] |}
                          "CWD" _) eq_refl eq_refl)).
  apply nodupb_NoDup. reflexivity.
Defined.

(** ** What a computation returns *)

Lemma returns_bind {A B} (m : M A) (k : A -> M B) h b h' :
  returns (bind m k) h b h' ->
  exists a h1, returns m h a h1 /\ returns (k a) h1 b h'.
Proof.
  unfold returns, bind. destruct (m h) as [[a|e|] h1]; try discriminate.
  intros H. eauto.
Qed.

Lemma returns_ret {A} (a b : A) h h' : returns (ret a) h b h' -> b = a /\ h' = h.
Proof. unfold returns, ret. now intros [= <- <-]. Qed.

Lemma returns_lift {A} (r : result A) a h h' :
  returns (lift r) h a h' -> r = Ok a /\ h' = h.
Proof. unfold returns, lift. destruct r; [now intros [= <- <-] | discriminate]. Qed.

Lemma returns_read a f h h' :
  returns (read a) h f h' -> f = nth a h empty_frame /\ h' = h.
Proof. unfold returns, read. now intros [= <- <-]. Qed.

Lemma returns_alloc f a h h' :
  returns (alloc f) h a h' -> a = List.length h /\ h' = (h ++ [f])%list.
Proof. unfold returns, alloc. now intros [= <- <-]. Qed.

Lemma returns_column a c v h h' :
  returns (pd.column a c) h v h' ->
  h' = h /\ v = map (cell_at c) (rows (nth a h empty_frame))
  /\ has_label c (columns (nth a h empty_frame)) = true.
Proof.
  unfold returns, pd.column, bind, read.
  destruct (has_label c (columns (nth a h empty_frame))).
  - unfold ret. now intros [= <- <-].
  - discriminate.
Qed.

Lemma returns_has_column a c b h h' :
  returns (pd.has_column a c) h b h' ->
  h' = h /\ b = has_label c (columns (nth a h empty_frame)).
Proof. unfold returns, pd.has_column, bind, read, ret. now intros [= <- <-]. Qed.

Lemma returns_empty a b h h' : returns (pd.empty a) h b h' -> h' = h.
Proof. unfold returns, pd.empty, bind, read, ret. now intros [= _ <-]. Qed.

Lemma returns_iterrows a l h h' :
  returns (pd.iterrows a) h l h' ->
  h' = h /\ l = map (project (columns (nth a h empty_frame)))
                    (rows (nth a h empty_frame)).
Proof. unfold returns, pd.iterrows, bind, read, ret. now intros [= <- <-]. Qed.

Lemma returns_loc a mask p h h' :
  returns (pd.loc a mask) h p h' ->
  p = List.length h
  /\ h' = (h ++ [{| columns := columns (nth a h empty_frame);
                    rows := mask_rows mask (rows (nth a h empty_frame)) |}])%list.
Proof. unfold returns, pd.loc, bind, read, alloc. now intros [= <- <-]. Qed.

Lemma returns_head a p h h' :
  returns (pd.head a) h p h' ->
  p = List.length h
  /\ h' = (h ++ [{| columns := columns (nth a h empty_frame);
                    rows := firstn 5 (rows (nth a h empty_frame)) |}])%list.
Proof. unfold returns, pd.head, bind, read, alloc. now intros [= <- <-]. Qed.

Lemma returns_append a b c h h' :
  returns (pd.append a b) h c h' ->
  c = List.length h
  /\ h' = (h ++ [frame_append (nth a h empty_frame) (nth b h empty_frame)])%list.
Proof. unfold returns, pd.append, bind, read, alloc. now intros [= <- <-]. Qed.

(** Tagging the table that was allocated last. *)
Lemma returns_tag_last h0 f role level u h' :
  returns (pd.tag (List.length h0) role level) (h0 ++ [f])%list u h' ->
  h' = (h0 ++ [tagged_frame role level f])%list.
Proof.
  unfold returns, pd.tag, bind, modify. intros [= H]. subst h'.
  rewrite !nth_middle. rewrite replace_nth_app_r by auto.
  rewrite Nat.sub_diag. cbn [replace_nth].
  rewrite nth_middle. rewrite replace_nth_app_r by auto.
  now rewrite Nat.sub_diag.
Qed.

Lemma mask_rows_map {A} (p : A -> bool) (l : list A) :
  mask_rows (map p l) l = filter p l.
Proof. induction l as [|x r IH]; simpl; auto. now rewrite IH. Qed.

Lemma mask_rows_map2 {A B} (g : A -> B) (p : B -> bool) (l : list A) :
  mask_rows (map p (map g l)) l = filter (fun x => p (g x)) l.
Proof. rewrite map_map. apply (mask_rows_map (fun x => p (g x))). Qed.

Lemma returns_finish_tree tree procs a h h' :
  returns (finish_tree tree procs) h a h' ->
  nth a h' empty_frame
  = {| columns := tree_columns;
       rows := final_rows
                 (map (map (fun kv => (rename_label canonical_names (fst kv), snd kv)))
                      (rows (nth tree h empty_frame))
                  ++ rows (nth procs
                             (h ++ [frame_rename canonical_names
                                      (nth tree h empty_frame)])%list
                             empty_frame))%list |}.
Proof.
  unfold finish_tree. intros H.
  apply returns_bind in H as (t & h0 & R & H). apply returns_read in R as [-> ->].
  apply returns_bind in H as (renamed & h1 & R & H).
  apply returns_alloc in R as [-> ->].
  apply returns_bind in H as (wp & h2 & R & H).
  apply returns_append in R as [-> ->]. rewrite nth_middle in H.
  set (fr := frame_rename canonical_names (nth tree h empty_frame)) in *.
  set (h1 := (h ++ [fr])%list) in *.
  apply returns_bind in H as (f & h3 & R & H).
  apply returns_read in R as [-> ->]. rewrite nth_middle in H.
  set (f := frame_append fr (nth procs h1 empty_frame)) in *.
  destruct (negb (has_label "TimeGenerated" (columns f)));
    [apply returns_lift in H as [? _]; discriminate|].
  apply returns_bind in H as (sorted & h4 & R & H).
  apply returns_alloc in R as [-> ->].
  destruct (negb (forallb _ tree_columns));
    [apply returns_lift in H as [? _]; discriminate|].
  apply returns_bind in H as (g & h5 & R & H).
  apply returns_read in R as [-> ->]. rewrite nth_middle in H.
  apply returns_bind in H as (selected & h6 & R & H).
  apply returns_alloc in R as [-> ->].
  apply returns_bind in H as (ids & h7 & R & H).
  apply returns_column in R as (-> & -> & _). rewrite nth_middle in H.
  apply returns_bind in H as (with_id & h8 & R & H).
  apply returns_loc in R as [-> ->]. rewrite nth_middle in H.
  apply returns_bind in H as (k & h9 & R & H).
  apply returns_read in R as [-> ->]. rewrite nth_middle in H.
  apply returns_alloc in H as [-> ->]. rewrite nth_middle.
  cbn [columns rows frame_select]. rewrite mask_rows_map2.
  reflexivity.
Qed.

(** ** The shape of the tree *)

Lemma list_eqb_eq {A} (eqb : A -> A -> bool) :
  (forall x y, eqb x y = true <-> x = y) ->
  forall l1 l2, list_eqb eqb l1 l2 = true <-> l1 = l2.
Proof.
  intros E. induction l1 as [|x r IH]; intros [|y r2]; simpl;
    try (split; [discriminate | discriminate]); try tauto.
  rewrite andb_true_iff, E, IH. split.
  - now intros [-> ->].
  - now intros [= -> ->].
Qed.

Lemma pair_eqb_eq {A B} (ea : A -> A -> bool) (eb : B -> B -> bool) :
  (forall x y, ea x y = true <-> x = y) ->
  (forall x y, eb x y = true <-> x = y) ->
  forall p q, pair_eqb ea eb p q = true <-> p = q.
Proof.
  intros EA EB [a b] [c d]. unfold pair_eqb. simpl.
  rewrite andb_true_iff, EA, EB. split.
  - now intros [-> ->].
  - now intros [= -> ->].
Qed.

Lemma cell_eqb_eq c d : cell_eqb c d = true <-> c = d.
Proof.
  destruct c, d; simpl; try (split; [discriminate | discriminate]); try tauto.
  - rewrite Z.eqb_eq. split; [now intros -> | now intros [= ->]].
  - rewrite String.eqb_eq. split; [now intros -> | now intros [= ->]].
  - rewrite (list_eqb_eq _
               (list_eqb_eq _
                  (pair_eqb_eq _ _ String.eqb_eq (list_eqb_eq _ String.eqb_eq)))).
    split; [now intros -> | now intros [= ->]].
Qed.

Lemma row_eqb_eq r1 r2 : row_eqb r1 r2 = true <-> r1 = r2.
Proof.
  apply (list_eqb_eq _ (pair_eqb_eq _ _ String.eqb_eq cell_eqb_eq)).
Qed.

Lemma dedup_In l : forall seen r, In r (dedup seen l) -> In r l /\ ~ In r seen.
Proof.
  induction l as [|x l IH]; intros seen r; simpl; [tauto|].
  destruct (existsb (row_eqb x) seen) eqn:E.
  - intros I. apply IH in I. tauto.
  - intros [<-|I].
    + split; auto. intros S.
      assert (X : existsb (row_eqb x) seen = true).
      { apply existsb_exists. exists x. split; auto. now apply row_eqb_eq. }
      congruence.
    + apply IH in I as [I N]. split; auto. intros S. apply N. now right.
Qed.

Lemma dedup_NoDup l : forall seen, NoDup (dedup seen l).
Proof.
  induction l as [|x l IH]; intros seen; simpl; [constructor|].
  destruct (existsb (row_eqb x) seen); auto.
  constructor; auto. intros I. apply dedup_In in I as [_ N]. apply N. now left.
Qed.

Lemma generate_process_tree_returns_finish fuel audit_data branch_depth processes
  h a h' :
  returns (generate_process_tree fuel audit_data branch_depth processes) h a h' ->
  exists tree procs h0, returns (finish_tree tree procs) h0 a h'.
Proof.
  unfold generate_process_tree, build_tree. intros H.
  apply returns_bind in H as (procs & h1 & _ & H).
  apply returns_bind in H as (r & h2 & _ & H).
  apply returns_bind in H as (l & h3 & _ & H).
  apply returns_bind in H as (u & h4 & _ & H).
  apply returns_bind in H as (t0 & h5 & _ & H).
  apply returns_bind in H as (pids & h6 & _ & H).
  apply returns_bind in H as (t1 & h7 & _ & H).
  eauto.
Qed.

(** X15. The table that [generate_process_tree] returns has the nine
    columns of the tree; each of its rows has a cell for each of them, in
    this order, and a process id that is not missing; and no two of its
    rows are equal. *)
Theorem process_tree_shape :
  forall fuel audit_data branch_depth processes h a h',
    generate_process_tree fuel audit_data branch_depth processes h = (Return a, h') ->
    let tree := nth a h' empty_frame in
    columns tree = tree_columns
    /\ (forall r, In r (rows tree) ->
                  PyDict.keys r = tree_columns
                  /\ cell_at "NewProcessId" r <> NaN)
    /\ NoDup (rows tree).
Proof.
  intros fuel audit D processes h a h' H tree. subst tree.
  apply generate_process_tree_returns_finish in H as (t & p & h0 & H).
  rewrite (returns_finish_tree _ _ _ _ _ H). cbn [columns rows].
  split; [reflexivity|]. split; [|apply dedup_NoDup].
  intros r I. unfold final_rows in I. apply dedup_In in I as [I _].
  apply filter_In in I as [I N]. split.
  - apply in_map_iff in I as (r0 & <- & _). reflexivity.
  - intros E. rewrite E in N. discriminate.
Qed.

Lemma process_tree_shape_witness :
  let tree := {| columns := tree_columns;
                 rows := [ tree_row 5 3 2 "child" 2;
                           tree_row 10 1 0 "parent" 1;
                           tree_row 20 2 1 "child" 1 ] |} in
  columns tree = tree_columns
  /\ (forall r, In r (rows tree) ->
                PyDict.keys r = tree_columns
                /\ cell_at "NewProcessId" r <> NaN)
  /\ NoDup (rows tree).
Proof.
  assert (E : generate_process_tree 5 0%nat 4 (Some 1%nat) [reused_pid; seed_1]
              = reused_pid_run) by (vm_compute; reflexivity).
  unfold reused_pid_run in E.
  exact (process_tree_shape 5 0%nat 4 (Some 1%nat) [reused_pid; seed_1] _ _ E).
Defined.

Lemma cell_leb_total c d : cell_leb c d = false -> cell_leb d c = true.
Proof.
  destruct c, d; simpl; try discriminate; auto.
  intros L. apply Z.leb_gt in L. apply Z.leb_le. lia.
Qed.

Lemma cell_leb_trans c d e :
  cell_leb c d = true -> cell_leb d e = true -> cell_leb c e = true.
Proof.
  destruct c, d, e; simpl; try discriminate; auto.
  intros A B. apply Z.leb_le in A, B. apply Z.leb_le. lia.
Qed.

Section Sorting.
Variable by_ : string.
Let le (r1 r2 : row) : Prop :=
  cell_leb (cell_at by_ r1) (cell_at by_ r2) = true.

Lemma insert_row_In r l x : In x (insert_row by_ r l) <-> x = r \/ In x l.
Proof.
  induction l as [|y l IH]; simpl; [intuition auto|].
  destruct (cell_leb (cell_at by_ y) (cell_at by_ r)); simpl.
  - rewrite IH. intuition auto.
  - intuition auto.
Qed.

Lemma insert_row_sorted r l :
  StronglySorted le l -> StronglySorted le (insert_row by_ r l).
Proof.
  induction l as [|y l IH]; intros S; simpl.
  - repeat constructor.
  - inversion S as [|? ? S' F]; subst.
    destruct (cell_leb (cell_at by_ y) (cell_at by_ r)) eqn:E.
    + constructor; auto. rewrite Forall_forall in *. intros x I.
      apply insert_row_In in I as [->|I]; auto.
    + assert (R : le r y) by (now apply cell_leb_total).
      constructor; auto. constructor; auto.
      rewrite Forall_forall in *. intros x I.
      unfold le in *. eapply cell_leb_trans; [exact R | now apply F].
Qed.

Lemma sort_rows_from_sorted l : forall acc,
  StronglySorted le acc ->
  StronglySorted le (fold_left (fun acc r => insert_row by_ r acc) l acc).
Proof.
  induction l as [|r l IH]; intros acc S; simpl; auto.
  apply IH. now apply insert_row_sorted.
Qed.

Lemma sort_rows_sorted l : StronglySorted le (sort_rows by_ l).
Proof. apply sort_rows_from_sorted. constructor. Qed.

Lemma sort_rows_from_In l : forall acc x,
  In x (fold_left (fun acc r => insert_row by_ r acc) l acc) <-> In x l \/ In x acc.
Proof.
  induction l as [|r l IH]; intros acc x; simpl; [tauto|].
  rewrite IH, insert_row_In. intuition auto.
Qed.

Lemma sort_rows_In l x : In x (sort_rows by_ l) <-> In x l.
Proof. unfold sort_rows. rewrite sort_rows_from_In. simpl. tauto. Qed.
End Sorting.

Lemma StronglySorted_filter {A} (R : A -> A -> Prop) (p : A -> bool) l :
  StronglySorted R l -> StronglySorted R (filter p l).
Proof.
  induction 1 as [|x l S IH F]; simpl; [constructor|].
  destruct (p x); auto. constructor; auto.
  rewrite Forall_forall in *. intros y I. apply filter_In in I as [I _]. auto.
Qed.

Lemma StronglySorted_dedup (R : row -> row -> Prop) l :
  StronglySorted R l -> forall seen, StronglySorted R (dedup seen l).
Proof.
  induction 1 as [|x l S IH F]; intros seen; simpl; [constructor|].
  destruct (existsb (row_eqb x) seen); auto. constructor; auto.
  rewrite Forall_forall in *. intros y I. apply dedup_In in I as [I _]. auto.
Qed.

Lemma StronglySorted_map_project l :
  StronglySorted time_leb l ->
  StronglySorted time_leb (map (project tree_columns) l).
Proof.
  assert (T : forall r, cell_at "TimeGenerated" (project tree_columns r)
                        = cell_at "TimeGenerated" r)
    by (intros r; apply cell_at_project; simpl; auto).
  induction 1 as [|x l S IH F]; simpl; constructor; auto.
  rewrite Forall_forall in *. intros y I.
  apply in_map_iff in I as (y0 & <- & I). unfold time_leb. rewrite !T.
  now apply F.
Qed.

(** X16. The rows of the table that [generate_process_tree] returns are in
    the order of their time stamps: of two rows the first has the time
    stamp that is not above the other, rows without a time stamp being
    last. *)
Theorem process_tree_is_in_time_order :
  forall fuel audit_data branch_depth processes h a h',
    generate_process_tree fuel audit_data branch_depth processes h = (Return a, h') ->
    StronglySorted time_leb (rows (nth a h' empty_frame)).
Proof.
  intros fuel audit D processes h a h' H.
  apply generate_process_tree_returns_finish in H as (t & p & h0 & H).
  rewrite (returns_finish_tree _ _ _ _ _ H). cbn [rows]. unfold final_rows.
  apply StronglySorted_dedup, StronglySorted_filter, StronglySorted_map_project.
  apply sort_rows_sorted.
Qed.

Lemma process_tree_is_in_time_order_witness :
  StronglySorted time_leb
    [ tree_row 5 3 2 "child" 2; tree_row 10 1 0 "parent" 1; tree_row 20 2 1 "child" 1 ].
Proof.
  assert (E : generate_process_tree 5 0%nat 4 (Some 1%nat) [reused_pid; seed_1]
              = reused_pid_run) by (vm_compute; reflexivity).
  unfold reused_pid_run in E.
  exact (process_tree_is_in_time_order 5 0%nat 4 (Some 1%nat) [reused_pid; seed_1]
           _ _ E).
Defined.

(** ** No seed *)

Lemma has_label_add_label c c' cols :
  has_label c (add_label c' cols) = has_label c cols || String.eqb c c'.
Proof.
  unfold add_label. destruct (has_label c' cols) eqn:E.
  - destruct (String.eqb c c') eqn:X; [|now rewrite orb_false_r].
    apply String.eqb_eq in X. subst. now rewrite E.
  - unfold has_label. rewrite existsb_app. simpl. now rewrite orb_false_r.
Qed.

Lemma has_label_fold_add_label c cols : forall acc,
  has_label c (fold_left (fun cs x => add_label x cs) cols acc)
  = has_label c acc || has_label c cols.
Proof.
  induction cols as [|x cols IH]; intros acc; simpl.
  - now rewrite orb_false_r.
  - rewrite IH, has_label_add_label. unfold has_label at 4. simpl.
    rewrite <- orb_assoc. reflexivity.
Qed.

Lemma bind_return {A B} (m : M A) (k : A -> M B) h a h1 :
  m h = (Return a, h1) -> bind m k h = k a h1.
Proof. intros E. unfold bind. now rewrite E. Qed.

Lemma bind_throw {A B} (m : M A) (k : A -> M B) h e h1 :
  m h = (Throw e, h1) -> bind m k h = (Throw e, h1).
Proof. intros E. unfold bind. now rewrite E. Qed.

(** Without a row of seeds, and without a column [NewProcessId] in the
    table of seeds, building the tree raises [KeyError]. *)
Lemma build_tree_without_seeds fuel audit_data branch_depth procs h :
  (procs < List.length h)%nat ->
  rows (nth procs h empty_frame) = [] ->
  has_label "NewProcessId" (columns (nth procs h empty_frame)) = false ->
  fst (build_tree fuel audit_data branch_depth procs h) = Throw KeyError.
Proof.
  intros L R N. unfold build_tree.
  rewrite (bind_return _ _ h (List.length h) (h ++ [empty_frame])%list eq_refl).
  set (h1 := (h ++ [empty_frame])%list).
  assert (P1 : nth procs h1 empty_frame = nth procs h empty_frame)
    by (subst h1; now apply app_nth1).
  unfold bind at 1. unfold pd.column, bind at 1, read. rewrite P1.
  destruct (has_label "pid" (columns (nth procs h empty_frame)));
    [|reflexivity].
  rewrite R. cbn [map ret for_each].
  unfold bind at 1. cbn [ret]. unfold finish_tree.
  unfold bind at 1. unfold read at 1. subst h1. rewrite nth_middle.
  unfold bind at 1. unfold alloc at 1.
  set (fr := frame_rename canonical_names empty_frame).
  set (h2 := ((h ++ [empty_frame]) ++ [fr])%list).
  assert (P2 : nth procs h2 empty_frame = nth procs h empty_frame).
  { subst h2. rewrite app_nth1 by (rewrite length_app; simpl; lia).
    now apply app_nth1. }
  unfold bind at 1. unfold pd.append, bind at 1, read at 1.
  unfold bind at 1. unfold read at 1. unfold alloc at 1.
  replace (nth (List.length (h ++ [empty_frame])) h2 empty_frame) with fr
    by (subst h2; now rewrite nth_middle).
  rewrite P2.
  unfold bind at 1. unfold read at 1. rewrite nth_middle.
  set (f := frame_append fr (nth procs h empty_frame)).
  assert (C : forallb (fun c => has_label c (columns f)) tree_columns = false).
  { apply not_true_is_false. intros A. rewrite forallb_forall in A.
    specialize (A "NewProcessId"). subst f. unfold frame_append in A.
    cbn [columns] in A. rewrite has_label_fold_add_label in A.
    rewrite N in A. simpl in A. discriminate A. simpl. auto. }
  destruct (negb (has_label "TimeGenerated" (columns f))); [reflexivity|].
  unfold bind at 1. unfold alloc at 1. rewrite C. reflexivity.
Qed.

Lemma filter_none {A} (p : A -> bool) l :
  Forall (fun x => p x = false) l -> filter p l = [].
Proof.
  induction 1 as [|x l H F IH]; simpl; auto. now rewrite H.
Qed.

Lemma tagged_frame_rows role level f :
  rows f = [] -> rows (tagged_frame role level f) = [].
Proof. intros R. unfold tagged_frame, frame_assign. cbn [rows]. now rewrite R. Qed.

Lemma tagged_frame_label role level f c :
  has_label c (columns (tagged_frame role level f))
  = has_label c (columns f) || String.eqb c "NodeRole" || String.eqb c "Level".
Proof.
  unfold tagged_frame, frame_assign. cbn [columns].
  now rewrite !has_label_add_label.
Qed.

Lemma tag_seeds_is_tagged f :
  tag_seeds f = f \/ tag_seeds f = tagged_frame "source" 0 f.
Proof. unfold tag_seeds. destruct (negb _ && negb _); auto. Qed.

(** X17. Without a seed there is no tree but an error.  When the caller
    passes a table of seeds without rows, or passes none and no row of the
    data has a [pid], and the table has no column [NewProcessId],
    [generate_process_tree] raises [KeyError]: it never returns an empty
    tree. *)
Theorem no_seed_raises_key_error :
  forall fuel audit_data branch_depth processes h,
    match processes with
    | Some p =>
        (p < List.length h)%nat
        /\ rows (nth p h empty_frame) = []
        /\ has_label "NewProcessId" (columns (nth p h empty_frame)) = false
    | None =>
        Forall (fun r => cell_at "pid" r = NaN) (rows (nth audit_data h empty_frame))
        /\ has_label "NewProcessId" (columns (nth audit_data h empty_frame)) = false
    end ->
    fst (generate_process_tree fuel audit_data branch_depth processes h)
    = Throw KeyError.
Proof.
  intros fuel audit D [p|] h.
  - intros (L & R & N). rewrite generate_process_tree_seeds.
    apply build_tree_without_seeds.
    + now rewrite heap_tagged_length.
    + rewrite heap_tagged_same by assumption.
      destruct (tag_seeds_is_tagged (nth p h empty_frame)) as [-> | ->]; auto.
      now apply tagged_frame_rows.
    + rewrite heap_tagged_same by assumption.
      destruct (tag_seeds_is_tagged (nth p h empty_frame)) as [-> | ->]; auto.
      rewrite tagged_frame_label, N. reflexivity.
  - intros (F & N). unfold generate_process_tree.
    set (f := nth audit h empty_frame) in *.
    set (f0 := {| columns := columns f; rows := [] |}).
    destruct (has_label "pid" (columns f)) eqn:Hp.
    2:{ unfold bind at 1. unfold bind at 1. unfold pd.column, bind at 1, read.
        fold f. now rewrite Hp. }
    assert (S : (pids <- pd.column audit "pid" ;;
                 with_pid <- pd.loc audit (map notnull pids) ;;
                 pd.head with_pid) h
                = (Return (List.length (h ++ [f0])%list), ((h ++ [f0]) ++ [f0])%list)).
    { unfold bind at 1. unfold pd.column, bind at 1, read. fold f. rewrite Hp.
      cbn [ret]. unfold bind at 1. unfold pd.loc, bind at 1, read, alloc.
      fold f. rewrite mask_rows_map2.
      rewrite filter_none
        by (eapply Forall_impl; [|exact F]; intros r E; simpl in E; now rewrite E).
      fold f0. unfold pd.head, bind, read, alloc. rewrite nth_middle. reflexivity. }
    rewrite (bind_return _ _ _ _ _ S).
    set (procs := List.length (h ++ [f0])%list).
    set (h2 := ((h ++ [f0]) ++ [f0])%list).
    rewrite (bind_return (pd.has_column procs "NodeRole") _ h2 _ h2 eq_refl).
    rewrite (bind_return (pd.has_column procs "Level") _ h2 _ h2 eq_refl).
    assert (T : exists f1,
               (if negb (has_label "NodeRole" (columns (nth procs h2 empty_frame)))
                   && negb (has_label "Level" (columns (nth procs h2 empty_frame)))
                then pd.tag procs "source" 0 else ret tt) h2
               = (Return tt, ((h ++ [f0]) ++ [f1])%list)
               /\ rows f1 = []
               /\ has_label "NewProcessId" (columns f1) = false).
    { destruct (negb _ && negb _).
      - exists (tagged_frame "source" 0 f0). split; [|split].
        + destruct (pd.tag procs "source" 0 h2) as [o h3] eqn:E.
          assert (O : o = Return tt).
          { unfold pd.tag, bind, modify in E. now injection E as <- _. }
          subst o. f_equal. now apply (returns_tag_last _ _ _ _ _ _ E).
        + reflexivity.
        + rewrite tagged_frame_label. simpl. now rewrite N.
      - exists f0. repeat split; auto. }
    destruct T as (f1 & T & R1 & N1).
    rewrite (bind_return _ _ _ _ _ T).
    apply build_tree_without_seeds.
    + subst procs. rewrite !length_app. simpl. lia.
    + subst procs. now rewrite nth_middle.
    + subst procs. now rewrite nth_middle.
Qed.

Lemma no_seed_raises_key_error_witness :
  fst (generate_process_tree 5 0%nat 4 None
         [{| columns := proc_columns; rows := [] |}])
  = Throw KeyError.
Proof.
  apply (no_seed_raises_key_error 5 0%nat 4 None
           [{| columns := proc_columns; rows := [] |}]).
  split; [constructor | reflexivity].
Defined.

(** ** The rows of the tree come from the walks *)

Lemma extends_trans a b c : extends a b -> extends b c -> extends a c.
Proof. intros [x ->] [y ->]. exists (x ++ y)%list. now rewrite app_assoc. Qed.

Lemma extends_app h x : extends h (h ++ x)%list.
Proof. now exists x. Qed.

Lemma tagged_frame_walk_rows role level f :
  role = "parent" \/ role = "child" -> 1 <= level ->
  Forall walk_row (rows (tagged_frame role level f)).
Proof.
  intros R L. unfold tagged_frame, frame_assign. cbn [rows].
  rewrite Forall_forall. intros r I.
  apply in_map_iff in I as (r1 & <- & I). apply in_map_iff in I as (r0 & <- & _).
  unfold walk_row, cell_at. split.
  - rewrite get_set_other by discriminate. rewrite get_set_same.
    destruct R as [-> | ->]; auto.
  - exists level. rewrite get_set_same. auto.
Qed.

(** A walk appends the rows of a table that it has just tagged. *)
Lemma walk_tree_append h tree f role level :
  walk_tree h tree ->
  role = "parent" \/ role = "child" -> 1 <= level ->
  let h2 := (h ++ [tagged_frame role level f])%list in
  walk_tree (h2 ++ [frame_append (nth tree h2 empty_frame)
                                 (nth (List.length h) h2 empty_frame)])%list
            (List.length h2).
Proof.
  intros [L F] R Lv h2. split.
  - rewrite length_app. simpl. lia.
  - rewrite nth_middle. unfold frame_append. cbn [rows].
    subst h2. rewrite nth_middle. rewrite app_nth1 by assumption.
    apply Forall_app. split; auto. now apply tagged_frame_walk_rows.
Qed.

Lemma returns_for_each {A S} (I : S -> heap -> Prop) (body : A -> S -> M S) :
  (forall x s h s' h', I s h -> returns (body x s) h s' h' -> I s' h') ->
  forall l s h s' h', I s h -> returns (for_each l body s) h s' h' -> I s' h'.
Proof.
  intros B. induction l as [|x l IH]; intros s h s' h' Is H; simpl in H.
  - apply returns_ret in H as [-> ->]. assumption.
  - apply returns_bind in H as (s1 & h1 & R & H). eapply IH; [|exact H].
    eapply B; eauto.
Qed.

Lemma returns_while {S} (I : S -> heap -> Prop) (cond : S -> bool) (body : S -> M S) :
  (forall s h s' h', I s h -> cond s = true -> returns (body s) h s' h' -> I s' h') ->
  forall fuel s h s' h', I s h -> returns (while fuel cond body s) h s' h' -> I s' h'.
Proof.
  intros B. induction fuel as [|fuel IH]; intros s h s' h' Is H; simpl in H.
  - discriminate.
  - destruct (cond s) eqn:C.
    + apply returns_bind in H as (s1 & h1 & R & H). eapply IH; [|exact H].
      eapply B; eauto.
    + apply returns_ret in H as [-> ->]. assumption.
Qed.

Section WalkInvariant.
Variables (hs : heap) (audit_data : addr) (branch_depth : Z).

Lemma walk_step role (src : addr) (col : string) (x : cell) count tbl tree
  st' h h' :
  role = "parent" \/ role = "child" ->
  walk_inv hs (count, tbl, tree) h ->
  returns (pids <- pd.column audit_data col ;;
           n <- lift (int_of_cell x) ;;
           t' <- pd.loc audit_data (map (cell_eq_int n) pids) ;;
           pd.tag t' role (count + 1) ;;;
           tree' <- pd.append tree t' ;;
           ret (count + 1, t', tree')) h st' h' ->
  walk_inv hs st' h'.
Proof.
  intros R (E & W & C) H. unfold count_of, tree_of in *. simpl in *.
  apply returns_bind in H as (pids & h0 & X & H).
  apply returns_column in X as (-> & _ & _).
  apply returns_bind in H as (n & h0 & X & H).
  apply returns_lift in X as [_ ->].
  apply returns_bind in H as (t' & h1 & X & H).
  apply returns_loc in X as [-> ->].
  apply returns_bind in H as (u & h2 & X & H).
  apply returns_tag_last in X. subst h2.
  apply returns_bind in H as (tree' & h3 & X & H).
  apply returns_append in X as [-> ->].
  apply returns_ret in H as [-> ->].
  split; [|split].
  - eapply extends_trans; [exact E|]. rewrite <- app_assoc. apply extends_app.
  - unfold tree_of. cbn [snd]. apply walk_tree_append; auto. lia.
  - unfold count_of. cbn [fst]. lia.
Qed.

Lemma ancestor_step_inv x st h st' h' :
  0 <= branch_depth ->
  walk_inv hs st h ->
  returns (ancestor_step audit_data branch_depth x st) h st' h' ->
  walk_inv hs st' h'.
Proof.
  intros D I H. destruct st as [[count pdf] tree]. unfold ancestor_step in H.
  apply returns_bind in H as (nan & h0 & X & H).
  apply returns_lift in X as [_ ->]. destruct nan.
  - apply returns_ret in H as [-> ->]. destruct I as (E & W & C).
    repeat split; auto; unfold count_of; simpl; try lia; apply W.
  - eapply (walk_step "parent"); eauto.
Qed.

Lemma descendant_step_inv x st h st' h' :
  walk_inv hs st h ->
  returns (descendant_step audit_data x st) h st' h' ->
  walk_inv hs st' h'.
Proof.
  intros I H. destruct st as [[count cdf] tree]. unfold descendant_step in H.
  eapply (walk_step "child"); eauto.
Qed.

Lemma ancestor_body_inv st h st' h' :
  walk_inv hs st h -> in_depth branch_depth st = true ->
  returns (ancestor_body audit_data branch_depth st) h st' h' ->
  walk_inv hs st' h'.
Proof.
  intros I C H. unfold in_depth in C. apply Z.leb_le in C.
  assert (D : 0 <= branch_depth) by (destruct I as (_ & _ & ?); lia).
  destruct st as [[count pdf] tree]. unfold ancestor_body in H.
  apply returns_bind in H as (e & h0 & X & H). apply returns_empty in X. subst h0.
  destruct e.
  - apply returns_ret in H as [-> ->]. destruct I as (E & W & _).
    repeat split; auto; unfold count_of; simpl; try lia; apply W.
  - apply returns_bind in H as (ppids & h0 & X & H).
    apply returns_column in X as (-> & _ & _).
    eapply (returns_for_each (fun s h => walk_inv hs s h)); [|exact I|exact H].
    intros y s h1 s1 h2 Is Hs. eapply ancestor_step_inv; eauto.
Qed.

Lemma descendant_body_inv st h st' h' :
  walk_inv hs st h -> in_depth branch_depth st = true ->
  returns (descendant_body audit_data branch_depth st) h st' h' ->
  walk_inv hs st' h'.
Proof.
  intros I C H. unfold in_depth in C. apply Z.leb_le in C.
  destruct st as [[count cdf] tree]. unfold descendant_body in H.
  apply returns_bind in H as (e & h0 & X & H). apply returns_empty in X. subst h0.
  destruct e.
  - apply returns_ret in H as [-> ->]. destruct I as (E & W & Cn).
    unfold count_of in *. simpl in *.
    repeat split; auto; unfold count_of; simpl; try lia; apply W.
  - apply returns_bind in H as (pids & h0 & X & H).
    apply returns_column in X as (-> & _ & _).
    eapply (returns_for_each (fun s h => walk_inv hs s h)); [|exact I|exact H].
    intros y s h1 s1 h2 Is Hs. eapply descendant_step_inv; eauto.
Qed.
End WalkInvariant.

Lemma walk_tree_extend h x tree : walk_tree h tree -> walk_tree (h ++ x)%list tree.
Proof.
  intros [L F]. split.
  - rewrite length_app. lia.
  - now rewrite app_nth1.
Qed.

(** A walk: the first generation is tagged and appended, the [while]
    follows. *)
Lemma walk_loop hs fuel branch_depth (body : walk_state -> M walk_state)
  tree f role h st h' :
  (forall s ha s' hb, walk_inv hs s ha -> in_depth branch_depth s = true ->
     returns (body s) ha s' hb -> walk_inv hs s' hb) ->
  role = "parent" \/ role = "child" ->
  extends hs h -> walk_tree h tree ->
  returns (while fuel (in_depth branch_depth) body
             (1, List.length h, List.length (h ++ [tagged_frame role 1 f])%list))
    ((h ++ [tagged_frame role 1 f])
     ++ [frame_append (nth tree (h ++ [tagged_frame role 1 f])%list empty_frame)
           (nth (List.length h) (h ++ [tagged_frame role 1 f])%list empty_frame)])%list
    st h' ->
  walk_inv hs st h'.
Proof.
  intros B R E W H.
  eapply (returns_while (fun s h => walk_inv hs s h)); [exact B| |exact H].
  split; [|split].
  - eapply extends_trans; [exact E|]. rewrite <- app_assoc. apply extends_app.
  - unfold tree_of. cbn [snd]. apply walk_tree_append; auto. lia.
  - unfold count_of. simpl. lia.
Qed.

Lemma descendants_of_inv hs fuel audit_data branch_depth proc tree h tree' h' :
  extends hs h /\ walk_tree h tree ->
  returns (descendants_of fuel audit_data branch_depth proc tree) h tree' h' ->
  extends hs h' /\ walk_tree h' tree'.
Proof.
  intros [E W] H. unfold descendants_of in H.
  apply returns_bind in H as (times & h0 & X & H).
  apply returns_column in X as (-> & _ & _).
  apply returns_bind in H as (t0 & h0 & X & H).
  apply returns_lift in X as [_ ->].
  apply returns_bind in H as (child_procs & h1 & X & H).
  apply returns_loc in X as [-> E1].
  assert (E' : extends hs h1).
  { eapply extends_trans; [exact E|]. subst h1. apply extends_app. }
  assert (W' : walk_tree h1 tree) by (subst h1; now apply walk_tree_extend).
  clear E1 E W.
  apply returns_bind in H as (ppids & h0 & X & H).
  apply returns_column in X as (-> & _ & _).
  apply returns_bind in H as (proc_pid & h0 & X & H).
  apply returns_lift in X as [_ ->].
  apply returns_bind in H as (n & h0 & X & H).
  apply returns_lift in X as [_ ->].
  apply returns_bind in H as (cdf & h2 & X & H).
  apply returns_loc in X as [-> ->].
  apply returns_bind in H as (u & h3 & X & H).
  apply returns_tag_last in X. subst h3.
  apply returns_bind in H as (tree1 & h4 & X & H).
  apply returns_append in X as [-> ->].
  apply returns_bind in H as (st & h5 & X & H).
  apply returns_ret in H as [-> ->].
  assert (K : walk_inv hs st h5).
  { eapply walk_loop; [| | | |exact X]; auto.
    intros s ha s' hb Is C Hs. eapply descendant_body_inv; eauto. }
  destruct K as (K1 & K2 & _). auto.
Qed.

Lemma seed_body_inv hs fuel audit_data branch_depth procs proc_pid tree h tree' h' :
  extends hs h /\ walk_tree h tree ->
  returns (seed_body fuel audit_data branch_depth procs proc_pid tree) h tree' h' ->
  extends hs h' /\ walk_tree h' tree'.
Proof.
  intros [E W] H. unfold seed_body in H.
  apply returns_bind in H as (pids & h0 & X & H).
  apply returns_column in X as (-> & _ & _).
  apply returns_bind in H as (n & h0 & X & H).
  apply returns_lift in X as [_ ->].
  apply returns_bind in H as (pdf & h2 & X & H).
  apply returns_loc in X as [-> ->].
  apply returns_bind in H as (u & h3 & X & H).
  apply returns_tag_last in X. subst h3.
  apply returns_bind in H as (tree1 & h4 & X & H).
  apply returns_append in X as [-> ->].
  apply returns_bind in H as (st & h5 & X & H).
  assert (K : walk_inv hs st h5).
  { eapply walk_loop; [| | | |exact X]; auto.
    intros s ha s' hb Is C Hs. eapply ancestor_body_inv; eauto. }
  destruct K as (K1 & K2 & _).
  apply returns_bind in H as (seeds & h0 & X1 & H).
  apply returns_iterrows in X1 as [-> _].
  eapply (returns_for_each (fun t h => extends hs h /\ walk_tree h t));
    [|split; [exact K1|exact K2]|exact H].
  intros x s ha s' hb Is Hs. eapply descendants_of_inv; eauto.
Qed.

(** Renaming keeps a label that is neither renamed nor the new name of
    another one. *)
Lemma get_rename_fixed {V} c (r : PyDict.t V) :
  (forall k, rename_label canonical_names k = c <-> k = c) ->
  PyDict.get c (map (fun kv => (rename_label canonical_names (fst kv), snd kv)) r)
  = PyDict.get c r.
Proof.
  intros F. induction r as [|[k v] r IH]; simpl; auto.
  rewrite IH. destruct (String.eqb c k) eqn:E.
  - apply String.eqb_eq in E. subst k.
    replace (rename_label canonical_names c) with c by (symmetry; now apply F).
    now rewrite String.eqb_refl.
  - destruct (String.eqb c (rename_label canonical_names k)) eqn:E2; auto.
    apply String.eqb_eq in E2. symmetry in E2. apply (proj1 (F k)) in E2. subst k.
    now rewrite String.eqb_refl in E.
Qed.

Lemma rename_fixed c :
  ~ In c (map fst canonical_names) -> ~ In c (map snd canonical_names) ->
  forall k, rename_label canonical_names k = c <-> k = c.
Proof.
  intros N1 N2 k. unfold rename_label.
  destruct (PyDict.get k canonical_names) as [c'|] eqn:G; [|tauto].
  assert (I : In (k, c') canonical_names).
  { revert G. clear. induction canonical_names as [|[k0 v0] m IH]; simpl; [discriminate|].
    destruct (String.eqb k k0) eqn:E.
    - apply String.eqb_eq in E. intros [= <-]. subst. auto.
    - auto. }
  split; intros Q; subst; exfalso.
  - apply N2. apply in_map_iff. eexists. split; [|exact I]. reflexivity.
  - apply N1. apply in_map_iff. eexists. split; [|exact I]. reflexivity.
Qed.

Lemma walk_row_renamed r :
  walk_row r ->
  walk_row (project tree_columns
              (map (fun kv => (rename_label canonical_names (fst kv), snd kv)) r)).
Proof.
  intros [R (n & L & G)].
  assert (FR : forall k, rename_label canonical_names k = "NodeRole" <-> k = "NodeRole").
  { apply rename_fixed; simpl; intuition discriminate. }
  assert (FL : forall k, rename_label canonical_names k = "Level" <-> k = "Level").
  { apply rename_fixed; simpl; intuition discriminate. }
  split.
  - rewrite cell_at_project by (simpl; tauto).
    unfold cell_at in *. now rewrite get_rename_fixed.
  - exists n. rewrite cell_at_project by (simpl; tauto).
    unfold cell_at in *. rewrite get_rename_fixed; auto.
Qed.

Lemma build_tree_walk_rows fuel audit_data branch_depth procs hs a h' :
  (procs < List.length hs)%nat ->
  Forall (fun r => cell_at "NewProcessId" r = NaN)
         (rows (nth procs hs empty_frame)) ->
  returns (build_tree fuel audit_data branch_depth procs) hs a h' ->
  Forall walk_row (rows (nth a h' empty_frame)).
Proof.
  intros L N H. unfold build_tree in H.
  apply returns_bind in H as (tree0 & h1 & X & H).
  apply returns_alloc in X as [-> ->].
  apply returns_bind in H as (pids & h0 & X & H).
  apply returns_column in X as (-> & _ & _).
  apply returns_bind in H as (tree & h2 & X & H).
  assert (K : extends hs h2 /\ walk_tree h2 tree).
  { eapply (returns_for_each (fun t h => extends hs h /\ walk_tree h t));
      [| |exact X].
    - intros x s ha s' hb Is Hs. eapply seed_body_inv; eauto.
    - split; [apply extends_app|]. split.
      + rewrite length_app. simpl. lia.
      + rewrite nth_middle. constructor. }
  destruct K as [E [Lt W]].
  rewrite (returns_finish_tree _ _ _ _ _ H). cbn [rows].
  rewrite app_nth1 by (destruct E as [x ->]; rewrite length_app; lia).
  rewrite (extends_nth hs h2 procs E L).
  rewrite Forall_forall. intros r I. unfold final_rows in I.
  apply dedup_In in I as [I _]. apply filter_In in I as [I NN].
  apply in_map_iff in I as (r0 & <- & I).
  apply sort_rows_In in I. apply in_app_or in I as [I|I].
  - apply in_map_iff in I as (r1 & <- & I).
    apply walk_row_renamed. rewrite Forall_forall in W. now apply W.
  - rewrite cell_at_project in NN by (simpl; tauto).
    rewrite Forall_forall in N. rewrite (N r0 I) in NN. discriminate.
Qed.

Lemma mask_rows_Forall {A} (P : A -> Prop) mask (l : list A) :
  Forall P l -> Forall P (mask_rows mask l).
Proof.
  intros F. revert mask. induction F as [|x l Px F IH]; intros [|b mask]; simpl;
    try constructor.
  destruct b; auto.
Qed.

Lemma firstn_Forall {A} (P : A -> Prop) n (l : list A) :
  Forall P l -> Forall P (firstn n l).
Proof.
  intros F. revert n. induction F as [|x l Px F IH]; intros [|n]; simpl;
    constructor; auto.
Qed.

Lemma tagged_frame_keeps role level f c v :
  c <> "NodeRole" -> c <> "Level" ->
  Forall (fun r => cell_at c r = v) (rows f) ->
  Forall (fun r => cell_at c r = v) (rows (tagged_frame role level f)).
Proof.
  intros N1 N2 F. unfold tagged_frame, frame_assign. cbn [rows].
  rewrite map_map. apply Forall_map. eapply Forall_impl; [|exact F].
  intros r E. simpl in E. unfold cell_at in *.
  now rewrite !get_set_other by assumption.
Qed.

(** X18. The rows of the tree are the rows that the walks found.  When no
    seed has a cell [NewProcessId] (the seeds are rows of the log, where
    the process id is [pid]), every row of the table that
    [generate_process_tree] returns has the role [parent] or [child] and a
    level from 1 on: the rows of the seeds, with the role [source] and the
    level 0, are never part of the result. *)
Theorem tree_rows_are_walk_rows :
  forall fuel audit_data branch_depth processes h a h',
    generate_process_tree fuel audit_data branch_depth processes h = (Return a, h') ->
    match processes with
    | Some p =>
        (p < List.length h)%nat
        /\ Forall (fun r => cell_at "NewProcessId" r = NaN)
                  (rows (nth p h empty_frame))
    | None =>
        Forall (fun r => cell_at "NewProcessId" r = NaN)
               (rows (nth audit_data h empty_frame))
    end ->
    Forall walk_row (rows (nth a h' empty_frame)).
Proof.
  intros fuel audit D [p|] h a h' H.
  - intros [L N]. rewrite generate_process_tree_seeds in H.
    eapply build_tree_walk_rows; [| |exact H].
    + now rewrite heap_tagged_length.
    + rewrite heap_tagged_same by assumption.
      destruct (tag_seeds_is_tagged (nth p h empty_frame)) as [-> | ->]; auto.
      apply tagged_frame_keeps; auto; discriminate.
  - intros N. unfold generate_process_tree in H.
    apply returns_bind in H as (procs & h2 & X & H).
    apply returns_bind in X as (pids & h0 & X0 & X).
    apply returns_column in X0 as (-> & _ & _).
    apply returns_bind in X as (with_pid & h1 & X0 & X).
    apply returns_loc in X0 as [-> E1].
    apply returns_head in X as [-> ->].
    apply returns_bind in H as (has_role & h0 & X & H).
    apply returns_has_column in X as [-> _].
    apply returns_bind in H as (has_level & h0 & X & H).
    apply returns_has_column in X as [-> _].
    apply returns_bind in H as (u & h3 & X & H).
    assert (F2 : Forall (fun r => cell_at "NewProcessId" r = NaN)
                   (firstn 5 (rows (nth (List.length h) h1 empty_frame)))).
    { apply firstn_Forall. subst h1. rewrite nth_middle. cbn [rows].
      now apply mask_rows_Forall. }
    destruct (negb has_role && negb has_level).
    + apply returns_tag_last in X. subst h3.
      eapply build_tree_walk_rows; [| |exact H].
      * rewrite length_app. simpl. lia.
      * rewrite nth_middle. apply tagged_frame_keeps; auto; discriminate.
    + apply returns_ret in X as [_ ->].
      eapply build_tree_walk_rows; [| |exact H].
      * rewrite length_app. simpl. lia.
      * rewrite nth_middle. exact F2.
Qed.

Lemma tree_rows_are_walk_rows_witness :
  Forall walk_row
    [ tree_row 5 3 2 "child" 2; tree_row 10 1 0 "parent" 1; tree_row 20 2 1 "child" 1 ].
Proof.
  assert (E : generate_process_tree 5 0%nat 4 (Some 1%nat) [reused_pid; seed_1]
              = reused_pid_run) by (vm_compute; reflexivity).
  unfold reused_pid_run in E.
  apply (tree_rows_are_walk_rows 5 0%nat 4 (Some 1%nat) [reused_pid; seed_1] _ _ E).
  split; [simpl; lia | repeat constructor].
Defined.

(** ** A line that does not parse *)





